(** * Project planner (js/project-planner.js): selection store, duration
      parsing, timeline, category grouping, persistence and category labels.

    Modelling conventions.
    - A JavaScript string is a [string]/[list ascii]: a sequence of code
      units below 256.  The development is meant for ASCII text; the only
      operations that look inside a code unit are the regular expression
      classes [\d], [\s], the case-insensitive literals and [toUpperCase] /
      [toLowerCase], all of which are modelled on the ASCII letters.  The
      statements about [toUpperCase] are restricted to ASCII characters
      ([isAscii]), where it is the method of the source.
    - A JavaScript number is an exact rational ([Q]) or an integer ([Z]).
      The source computes in binary64, which is exact on the integers up to
      [MAX_SAFE_INTEGER] (2^53 - 1) and on their halves.  The definitions
      are those of the source as long as the numbers stay in that range;
      outside it the source rounds and the definitions do not.  Every
      statement about a value computed by arithmetic therefore carries the
      range as a hypothesis: [exactMidpoint] for the bounds of a duration,
      [exactDuration] for a duration text, [exactSchedule] for a plan,
      [validDates] for the two dates of a plan document.
    - [this.selectedTasks] (a [Set]) is a duplicate-free list in insertion
      order; [this.projectPlan] (an [Array]) is a list.
    - A thrown exception is a value of a sum type. *)

From Stdlib Require Import ZArith QArith Qround Ascii String DecimalString.
From stdpp Require Import gmap strings list.

Local Open Scope Z_scope.
Local Open Scope string_scope.
Local Open Scope list_scope.

(** ** Regular expressions: the backtracking matcher of [RegExp.prototype.exec] *)

Module RegExp.

Inductive regex : Type :=
| Empty
| Char (p : ascii → bool)
| Seq (r1 r2 : regex)
| Alt (r1 r2 : regex)
| Star (r : regex)
| Group (n : nat) (r : regex).

(** [r+] and [r?] (both greedy). *)
Definition Plus (r : regex) : regex := Seq r (Star r).
Definition Opt (r : regex) : regex := Alt r Empty.

(** Captures: group number to captured text; a group that did not
    participate in the match is absent ([undefined]). *)
Definition captures : Type := gmap nat (list ascii).

(** A continuation receives the rest of the input and the captures. *)
Definition continuation : Type := list ascii → captures → option captures.
Definition matcher : Type := list ascii → captures → continuation → option captures.

(** Greedy repetition with the empty-iteration check: an iteration that
    consumes nothing is rejected.  Every accepted iteration shortens the
    input, so [length s] iterations are enough. *)
Fixpoint repeatMatcher (fuel : nat) (m : matcher) : matcher :=
  λ s c k,
  match fuel with
  | O => k s c
  | S fuel' =>
      match m s c (λ s' c',
               if bool_decide (length s' < length s)%nat
               then repeatMatcher fuel' m s' c' k else None) with
      | Some r => Some r
      | None => k s c
      end
  end.

Fixpoint compile (r : regex) : matcher :=
  λ s c k,
  match r with
  | Empty => k s c
  | Char p =>
      match s with
      | a :: s' => if p a then k s' c else None
      | [] => None
      end
  | Seq r1 r2 => compile r1 s c (λ s' c', compile r2 s' c' k)
  | Alt r1 r2 =>
      match compile r1 s c k with
      | Some r => Some r
      | None => compile r2 s c k
      end
  | Star r1 => repeatMatcher (length s) (compile r1) s c k
  | Group n r1 =>
      compile r1 s c
        (λ s' c', k s' (<[n := take (length s - length s') s]> c'))
  end.

(** One attempt at the current position. *)
Definition matchAt (r : regex) (s : list ascii) : option captures :=
  compile r s ∅ (λ _ c, Some c).

(** [exec] without the [g] and [y] flags: the leftmost position at which
    the pattern matches; [None] is JavaScript's [null]. *)
Fixpoint exec (r : regex) (s : list ascii) : option captures :=
  match matchAt r s with
  | Some c => Some c
  | None =>
      match s with
      | [] => None
      | _ :: s' => exec r s'
      end
  end.

(** What a successful match consumes and captures, declaratively. *)
Inductive Matches : regex → list ascii → captures → list ascii → captures → Prop :=
| M_Empty s c : Matches Empty s c s c
| M_Char (p : ascii → bool) a s c : p a = true → Matches (Char p) (a :: s) c s c
| M_Seq r1 r2 s c s1 c1 s2 c2 :
    Matches r1 s c s1 c1 → Matches r2 s1 c1 s2 c2 → Matches (Seq r1 r2) s c s2 c2
| M_AltL r1 r2 s c s1 c1 : Matches r1 s c s1 c1 → Matches (Alt r1 r2) s c s1 c1
| M_AltR r1 r2 s c s1 c1 : Matches r2 s c s1 c1 → Matches (Alt r1 r2) s c s1 c1
| M_StarStop r s c : Matches (Star r) s c s c
| M_StarStep r s c s1 c1 s2 c2 :
    Matches r s c s1 c1 → Matches (Star r) s1 c1 s2 c2 →
    Matches (Star r) s c s2 c2
| M_Group n r s c s1 c1 :
    Matches r s c s1 c1 →
    Matches (Group n r) s c s1 (<[n := take (length s - length s1) s]> c1).

(** Character classes and literals. *)
Definition isDigit (a : ascii) : bool :=
  let n := nat_of_ascii a in (48 <=? n)%nat && (n <=? 57)%nat.

(** [\s] below 256: TAB, LF, VT, FF, CR, SP, NBSP. *)
Definition isSpace (a : ascii) : bool :=
  let n := nat_of_ascii a in
  ((9 <=? n)%nat && (n <=? 13)%nat) || (n =? 32)%nat || (n =? 160)%nat.

Definition toUpperAscii (a : ascii) : ascii :=
  let n := nat_of_ascii a in
  if (97 <=? n)%nat && (n <=? 122)%nat then ascii_of_nat (n - 32) else a.

Definition toLowerAscii (a : ascii) : ascii :=
  let n := nat_of_ascii a in
  if (65 <=? n)%nat && (n <=? 90)%nat then ascii_of_nat (n + 32) else a.

(** A pattern character: exact, or under the [i] flag. *)
Definition chr (a : ascii) : regex := Char (λ b, bool_decide (b = a)).
Definition chrI (a : ascii) : regex :=
  Char (λ b, bool_decide (toUpperAscii b = toUpperAscii a)).

Fixpoint litI (w : list ascii) : regex :=
  match w with
  | [] => Empty
  | a :: w' => Seq (chrI a) (litI w')
  end.

End RegExp.

Import RegExp.

(** ** Strings *)

Definition toLowerCase (s : list ascii) : list ascii := map toLowerAscii s.

Definition digitValue (a : ascii) : Z := Z.of_nat (nat_of_ascii a) - 48.

(** [parseInt] on a run of decimal digits (the only argument it receives
    here): the decimal value, leading zeros allowed.  The source returns the
    binary64 number nearest to that value, which is the value itself up to
    [MAX_SAFE_INTEGER]. *)
Definition parseInt (ds : list ascii) : Z :=
  fold_left (λ acc a, 10 * acc + digitValue a) ds 0.

(** ** parseDuration *)

(** [/(\d+)(?:-(\d+))?\s*(day|week)/i] *)
Definition durationRe : regex :=
  Seq (Group 1 (Plus (Char isDigit)))
 (Seq (Opt (Seq (chr "-") (Group 2 (Plus (Char isDigit)))))
 (Seq (Star (Char isSpace))
      (Group 3 (Alt (litI (list_ascii_of_string "day"))
                    (litI (list_ascii_of_string "week")))))).

Definition capture (m : captures) (n : nat) : list ascii := default [] (m !! n).

(** [match[2] ? parseInt(match[2]) : min]: an absent group is [undefined],
    and the empty string is falsy as well. *)
Definition truthyGroup (m : captures) (n : nat) : bool :=
  match m !! n with
  | Some (_ :: _) => true
  | _ => false
  end.

Definition ceil (q : Q) : Z := Qceiling q.

(** The value of [Math.ceil(days)] for given bounds and unit, in exact
    arithmetic: what the source computes when [exactMidpoint] holds. *)
Definition roundedMidpoint (min max : Z) (week : bool) : Z :=
  ceil (if week then (inject_Z (min + max) / 2 * 7)%Q
        else (inject_Z (min + max) / 2)%Q).

Definition parseDuration (durationStr : string) : Z :=
  match exec durationRe (list_ascii_of_string durationStr) with
  | Some m =>
      let min := parseInt (capture m 1) in
      let max := if truthyGroup m 2 then parseInt (capture m 2) else min in
      let unit := toLowerCase (capture m 3) in
      let days :=
        if bool_decide (unit = list_ascii_of_string "week")
        then (inject_Z (min + max) / 2 * 7)%Q
        else (inject_Z (min + max) / 2)%Q in
      ceil days
  | None => 2
  end.

(** Vocabulary for statements about duration texts: a numeral is a
    non-empty run of decimal digits, a blank a possibly empty run of white
    space. *)
Definition numeral (ds : list ascii) : bool :=
  match ds with
  | [] => false
  | _ :: _ => forallb isDigit ds
  end.

Definition blank (ws : list ascii) : bool := forallb isSpace ws.

(** Whether a text starts with a character of a class. *)
Definition startsWith (p : ascii → bool) (s : list ascii) : bool :=
  match s with
  | a :: _ => p a
  | [] => false
  end.

(** The text of a bound pair: [N] or [N-M]. *)
Definition boundsText (n : list ascii) (om : option (list ascii)) : list ascii :=
  match om with
  | Some m => n ++ "-"%char :: m
  | None => n
  end.

(** The captures of a match on [N], [N-M], blank and unit. *)
Definition durationCaptures (n : list ascii) (om : option (list ascii))
    (u : list ascii) : captures :=
  <[3%nat := u]> (match om with
                  | Some x => <[2%nat := x]> (<[1%nat := n]> ∅)
                  | None => <[1%nat := n]> ∅
                  end).

(** Every code unit. *)
Definition allAscii : list ascii := map ascii_of_nat (seq 0 256).

(** [Number.MAX_SAFE_INTEGER]: up to it, every integer and every half of an
    integer is a binary64 number, and a sum or product of integers that
    stays below it is computed without rounding. *)
Definition MAX_SAFE_INTEGER : Z := 9007199254740991.

(** Whether [parseDuration] computes without rounding on given bounds and
    unit: the source forms [min + max], halves it and, for weeks, multiplies
    by 7; all three are exact when 7 times the sum (the sum itself, for
    days) is a safe integer. *)
Definition exactMidpoint (min max : Z) (week : bool) : bool :=
  ((if week then 7 else 1) * (min + max) <=? MAX_SAFE_INTEGER)%Z.

(** The same for a duration text, on the bounds and the unit that the
    pattern captures in it; a text without a match involves no arithmetic. *)
Definition exactDuration (durationStr : string) : bool :=
  match exec durationRe (list_ascii_of_string durationStr) with
  | Some m =>
      let min := parseInt (capture m 1) in
      let max := if truthyGroup m 2 then parseInt (capture m 2) else min in
      let unit := toLowerCase (capture m 3) in
      exactMidpoint min max (bool_decide (unit = list_ascii_of_string "week"))
  | None => true
  end.

(** A code unit of the ASCII range. *)
Definition isAscii (a : ascii) : bool := (nat_of_ascii a <? 128)%nat.

(** ** JSON: [JSON.stringify] and [JSON.parse] *)

Module JSON.

(** A number keeps its literal text: the planner never stores one. *)
#[local] Unset Elimination Schemes.
Inductive json : Type :=
| JNull
| JBool (b : bool)
| JNumber (lit : list ascii)
| JString (s : string)
| JArray (vs : list json)
| JObject (ms : list (string * json)).
#[local] Set Elimination Schemes.

(** What [parse] can answer: a value, a [SyntaxError], or [Unsupported]
    for a text this model does not decide (an escape [\uXXXX] above 255;
    also when the recursion budget runs out, which the length of the text
    is chosen to prevent). *)
Inductive outcome (A : Type) : Type :=
| Parsed (a : A)
| SyntaxError
| Unsupported.
Arguments Parsed {A} a.
Arguments SyntaxError {A}.
Arguments Unsupported {A}.

(** Induction on values, through arrays and objects. *)
Definition json_nested_ind (P : json → Prop)
    (Hnull : P JNull) (Hbool : ∀ b, P (JBool b))
    (Hnumber : ∀ lit, P (JNumber lit)) (Hstring : ∀ s, P (JString s))
    (Harray : ∀ vs, Forall P vs → P (JArray vs))
    (Hobject : ∀ ms, Forall (λ m, P m.2) ms → P (JObject ms)) :
  ∀ v, P v :=
  fix go (v : json) : P v :=
    match v with
    | JNull => Hnull
    | JBool b => Hbool b
    | JNumber lit => Hnumber lit
    | JString s => Hstring s
    | JArray vs =>
        Harray vs
          ((fix all (l : list json) : Forall P l :=
              match l with
              | [] => Forall_nil_2 P
              | x :: l' => Forall_cons_2 P x l' (go x) (all l')
              end) vs)
    | JObject ms =>
        Hobject ms
          ((fix all (l : list (string * json)) : Forall (λ m, P m.2) l :=
              match l with
              | [] => Forall_nil_2 _
              | x :: l' => Forall_cons_2 (λ m, P m.2) x l' (go x.2) (all l')
              end) ms)
    end.

Definition bind {A B} (o : outcome A) (f : A → outcome B) : outcome B :=
  match o with
  | Parsed a => f a
  | SyntaxError => SyntaxError
  | Unsupported => Unsupported
  end.

Notation "' p ← o ; k" := (bind o (λ p, k))
  (at level 20, p pattern, o at level 100, k at level 200, only parsing).

(** *** Writing *)

Definition hexDigit (n : nat) : ascii :=
  if (n <? 10)%nat then ascii_of_nat (48 + n) else ascii_of_nat (87 + n).

(** QuoteJSONString, one code unit at a time. *)
Definition escape (a : ascii) : list ascii :=
  let n := nat_of_ascii a in
  if (n =? 34)%nat then ["\"; "034"]%char
  else if (n =? 92)%nat then ["\"; "\"]%char
  else if (n =? 8)%nat then ["\"; "b"]%char
  else if (n =? 12)%nat then ["\"; "f"]%char
  else if (n =? 10)%nat then ["\"; "n"]%char
  else if (n =? 13)%nat then ["\"; "r"]%char
  else if (n =? 9)%nat then ["\"; "t"]%char
  else if (n <? 32)%nat
       then ["\"; "u"; "0"; "0"; hexDigit (n / 16); hexDigit (n mod 16)]%char
  else [a].

Definition quote (s : string) : list ascii :=
  "034"%char :: flat_map escape (list_ascii_of_string s) ++ ["034"%char].

(** Comma-separated items. *)
Fixpoint commaSep (items : list (list ascii)) : list ascii :=
  match items with
  | [] => []
  | [x] => x
  | x :: rest => x ++ ","%char :: commaSep rest
  end.

Fixpoint write (v : json) : list ascii :=
  match v with
  | JNull => list_ascii_of_string "null"
  | JBool true => list_ascii_of_string "true"
  | JBool false => list_ascii_of_string "false"
  | JNumber lit => lit
  | JString s => quote s
  | JArray vs => "["%char :: commaSep (map write vs) ++ ["]"%char]
  | JObject ms =>
      "{"%char
        :: commaSep (map (λ m, quote (fst m) ++ ":"%char :: write (snd m)) ms)
        ++ ["}"%char]
  end.

Definition stringify (v : json) : string := string_of_list_ascii (write v).

(** Values built from [null], booleans, strings, arrays and objects. *)
Fixpoint numberFree (v : json) : bool :=
  match v with
  | JNumber _ => false
  | JArray vs => forallb numberFree vs
  | JObject ms => forallb (λ m, numberFree (snd m)) ms
  | _ => true
  end.

(** *** Reading *)

Definition isWs (a : ascii) : bool :=
  let n := nat_of_ascii a in
  (n =? 32)%nat || (n =? 9)%nat || (n =? 10)%nat || (n =? 13)%nat.

Fixpoint skipWs (s : list ascii) : list ascii :=
  match s with
  | a :: s' => if isWs a then skipWs s' else s
  | [] => []
  end.

Definition hexValue (a : ascii) : option nat :=
  let n := nat_of_ascii a in
  if (48 <=? n)%nat && (n <=? 57)%nat then Some (n - 48)%nat
  else if (97 <=? n)%nat && (n <=? 102)%nat then Some (n - 87)%nat
  else if (65 <=? n)%nat && (n <=? 70)%nat then Some (n - 55)%nat
  else None.

Definition simpleEscape (a : ascii) : option ascii :=
  let n := nat_of_ascii a in
  if (n =? 34)%nat then Some a
  else if (n =? 92)%nat then Some a
  else if (n =? 47)%nat then Some a
  else if (n =? 98)%nat then Some (ascii_of_nat 8)
  else if (n =? 102)%nat then Some (ascii_of_nat 12)
  else if (n =? 110)%nat then Some (ascii_of_nat 10)
  else if (n =? 114)%nat then Some (ascii_of_nat 13)
  else if (n =? 116)%nat then Some (ascii_of_nat 9)
  else None.

Definition consChar (a : ascii) (o : outcome (list ascii * list ascii))
  : outcome (list ascii * list ascii) :=
  '(cs, r) ← o; Parsed (a :: cs, r).

(** The characters of a string literal, after its opening quote. *)
Fixpoint parseChars (s : list ascii) : outcome (list ascii * list ascii) :=
  match s with
  | [] => SyntaxError
  | a :: s1 =>
      if (nat_of_ascii a =? 34)%nat then Parsed ([], s1)
      else if (nat_of_ascii a =? 92)%nat then
        match s1 with
        | [] => SyntaxError
        | e :: s2 =>
            if (nat_of_ascii e =? 117)%nat then
              match s2 with
              | h1 :: h2 :: h3 :: h4 :: s3 =>
                  match hexValue h1, hexValue h2, hexValue h3, hexValue h4 with
                  | Some d1, Some d2, Some d3, Some d4 =>
                      if ((d1 =? 0) && (d2 =? 0))%nat
                      then consChar (ascii_of_nat (16 * d3 + d4)) (parseChars s3)
                      else Unsupported
                  | _, _, _, _ => SyntaxError
                  end
              | _ => SyntaxError
              end
            else
              match simpleEscape e with
              | Some c => consChar c (parseChars s2)
              | None => SyntaxError
              end
        end
      else if (nat_of_ascii a <? 32)%nat then SyntaxError
      else consChar a (parseChars s1)
  end.

Definition parseString (s : list ascii) : outcome (string * list ascii) :=
  '(cs, r) ← parseChars s; Parsed (string_of_list_ascii cs, r).

Fixpoint spanDigits (s : list ascii) : list ascii * list ascii :=
  match s with
  | a :: s' =>
      if isDigit a then let '(ds, r) := spanDigits s' in (a :: ds, r)
      else ([], s)
  | [] => ([], [])
  end.

(** A number literal: an optional minus sign, then 0 or a non-zero digit
    followed by digits, an optional fraction (a dot and digits), and an
    optional exponent (e or E, an optional sign, digits). *)
Definition parseNumber (s : list ascii) : outcome (list ascii * list ascii) :=
  let '(sign, s1) :=
    match s with
    | a :: s' => if (nat_of_ascii a =? 45)%nat then ([a], s') else ([], s)
    | [] => ([], s)
    end in
  let '(int, s2) := spanDigits s1 in
  match int with
  | [] => SyntaxError
  | d :: ds =>
      let '(int, s2) :=
        if (nat_of_ascii d =? 48)%nat then ([d], ds ++ s2) else (int, s2) in
      '(frac, s3) ←
        match s2 with
        | a :: s' =>
            if (nat_of_ascii a =? 46)%nat then
              match spanDigits s' with
              | ([], _) => SyntaxError
              | (fs, r) => Parsed (a :: fs, r)
              end
            else Parsed ([], s2)
        | [] => Parsed ([], s2)
        end;
      '(exp, s4) ←
        match s3 with
        | a :: s' =>
            if (nat_of_ascii a =? 101)%nat || (nat_of_ascii a =? 69)%nat then
              let '(sg, s'') :=
                match s' with
                | b :: t =>
                    if (nat_of_ascii b =? 43)%nat || (nat_of_ascii b =? 45)%nat
                    then ([b], t) else ([], s')
                | [] => ([], s')
                end in
              match spanDigits s'' with
              | ([], _) => SyntaxError
              | (es, r) => Parsed (a :: sg ++ es, r)
              end
            else Parsed ([], s3)
        | [] => Parsed ([], s3)
        end;
      Parsed (sign ++ int ++ frac ++ exp, s4)
  end.

Fixpoint stripPrefix (w s : list ascii) : option (list ascii) :=
  match w, s with
  | [], _ => Some s
  | a :: w', b :: s' => if bool_decide (a = b) then stripPrefix w' s' else None
  | _ :: _, [] => None
  end.

Definition parseLiteral (w : string) (v : json) (s : list ascii)
  : outcome (json * list ascii) :=
  match stripPrefix (list_ascii_of_string w) s with
  | Some r => Parsed (v, r)
  | None => SyntaxError
  end.

(** The elements of a non-empty array, up to and including ["]"]. *)
Fixpoint parseElements (n : nat) (pv : list ascii → outcome (json * list ascii))
    (s : list ascii) : outcome (list json * list ascii) :=
  match n with
  | O => Unsupported
  | S n' =>
      '(v, s1) ← pv s;
      match skipWs s1 with
      | a :: s2 =>
          if (nat_of_ascii a =? 44)%nat then
            '(vs, r) ← parseElements n' pv s2; Parsed (v :: vs, r)
          else if (nat_of_ascii a =? 93)%nat then Parsed ([v], s2)
          else SyntaxError
      | [] => SyntaxError
      end
  end.

(** The members of a non-empty object, up to and including ["}"]. *)
Fixpoint parseMembers (n : nat) (pv : list ascii → outcome (json * list ascii))
    (s : list ascii) : outcome (list (string * json) * list ascii) :=
  match n with
  | O => Unsupported
  | S n' =>
      match skipWs s with
      | q :: s0 =>
          if (nat_of_ascii q =? 34)%nat then
            '(k, s1) ← parseString s0;
            match skipWs s1 with
            | c :: s2 =>
                if (nat_of_ascii c =? 58)%nat then
                  '(v, s3) ← pv s2;
                  match skipWs s3 with
                  | a :: s4 =>
                      if (nat_of_ascii a =? 44)%nat then
                        '(ms, r) ← parseMembers n' pv s4; Parsed ((k, v) :: ms, r)
                      else if (nat_of_ascii a =? 125)%nat then Parsed ([(k, v)], s4)
                      else SyntaxError
                  | [] => SyntaxError
                  end
                else SyntaxError
            | [] => SyntaxError
            end
          else SyntaxError
      | [] => SyntaxError
      end
  end.

Fixpoint parseValue (fuel : nat) (s : list ascii) : outcome (json * list ascii) :=
  match fuel with
  | O => Unsupported
  | S fuel' =>
      match skipWs s with
      | [] => SyntaxError
      | a :: s1 =>
          let n := nat_of_ascii a in
          if (n =? 123)%nat then
            match skipWs s1 with
            | b :: s2 =>
                if (nat_of_ascii b =? 125)%nat then Parsed (JObject [], s2)
                else '(ms, r) ← parseMembers (length s1) (parseValue fuel') s1;
                     Parsed (JObject ms, r)
            | [] => SyntaxError
            end
          else if (n =? 91)%nat then
            match skipWs s1 with
            | b :: s2 =>
                if (nat_of_ascii b =? 93)%nat then Parsed (JArray [], s2)
                else '(vs, r) ← parseElements (length s1) (parseValue fuel') s1;
                     Parsed (JArray vs, r)
            | [] => SyntaxError
            end
          else if (n =? 34)%nat then
            '(k, r) ← parseString s1; Parsed (JString k, r)
          else if (n =? 116)%nat then parseLiteral "true" (JBool true) (a :: s1)
          else if (n =? 102)%nat then parseLiteral "false" (JBool false) (a :: s1)
          else if (n =? 110)%nat then parseLiteral "null" JNull (a :: s1)
          else if (n =? 45)%nat || isDigit a then
            '(lit, r) ← parseNumber (a :: s1); Parsed (JNumber lit, r)
          else SyntaxError
      end
  end.

(** [JSON.parse]: one value, then nothing but white space. *)
Definition parse (text : string) : outcome json :=
  let s := list_ascii_of_string text in
  '(v, r) ← parseValue (S (length s)) s;
  match skipWs r with
  | [] => Parsed v
  | _ :: _ => SyntaxError
  end.

End JSON.

(** ** Data model *)

(** The record built by [extractTaskData]. *)
Record Task : Type := {
  id : string;
  title : string;
  description : string;
  duration : string;
  difficulty : string;
  category : string
}.

(** A timeline entry pushed by [generateTimeline]. *)
Module TimelineItem.
Record t : Type := {
  task : string;
  startDay : Z;
  endDay : Z;
  duration : Z
}.
End TimelineItem.

(** The two fields of the [ProjectPlanner] instance. *)
Record ProjectPlanner : Type := {
  selectedTasks : list string;
  projectPlan : list Task
}.

(** The state built by the constructor, before [init]. *)
Definition constructed : ProjectPlanner :=
  {| selectedTasks := []; projectPlan := [] |}.

(** ** [Set]: insertion-ordered, no duplicates *)

Definition Set_has (x : string) (s : list string) : bool := bool_decide (x ∈ s).

Definition Set_add (x : string) (s : list string) : list string :=
  if Set_has x s then s else s ++ [x].

Definition Set_delete (x : string) (s : list string) : list string :=
  filter (λ y, y ≠ x) s.

Definition Set_size (s : list string) : nat := length s.

(** ** [Array.prototype.findIndex] *)

Fixpoint findIndexFrom {A} (p : A → bool) (l : list A) (i : Z) : Z :=
  match l with
  | [] => -1
  | x :: l' => if p x then i else findIndexFrom p l' (i + 1)
  end.

Definition findIndex {A} (p : A → bool) (l : list A) : Z := findIndexFrom p l 0.

(** ** The plan array *)

Definition addToProjectPlan (taskData : Task) (plan : list Task) : list Task :=
  let existingIndex :=
    findIndex (λ task, bool_decide (id task = id taskData)) plan in
  if bool_decide (existingIndex = -1) then plan ++ [taskData] else plan.

Definition removeFromProjectPlan (taskId : string) (plan : list Task) : list Task :=
  filter (λ task, id task ≠ taskId) plan.

(** ** Persistence *)

Import JSON.

Definition taskToJson (t : Task) : json :=
  JObject [("id", JString (id t)); ("title", JString (title t));
           ("description", JString (description t));
           ("duration", JString (duration t));
           ("difficulty", JString (difficulty t));
           ("category", JString (category t))].

(** The typed reading of a parsed value.  Only an object with exactly the
    six string properties of [extractTaskData], in that order, is a [Task]
    of this model. *)
Definition taskOfJson (v : json) : option Task :=
  match v with
  | JObject [(k1, JString v1); (k2, JString v2); (k3, JString v3);
             (k4, JString v4); (k5, JString v5); (k6, JString v6)] =>
      if bool_decide ([k1; k2; k3; k4; k5; k6] =
                      ["id"; "title"; "description"; "duration";
                       "difficulty"; "category"])
      then Some {| id := v1; title := v2; description := v3;
                   duration := v4; difficulty := v5; category := v6 |}
      else None
  | _ => None
  end.

Definition stringOfJson (v : json) : option string :=
  match v with
  | JString s => Some s
  | _ => None
  end.

Definition planToJson (plan : list Task) : json := JArray (map taskToJson plan).
Definition idsToJson (ids : list string) : json := JArray (map JString ids).

Definition planOfJson (v : json) : option (list Task) :=
  match v with
  | JArray vs => mapM taskOfJson vs
  | _ => None
  end.

(** [localStorage]: [getItem] is the lookup ([None] is [null]), [setItem]
    the insertion.  Storage quota is not modelled. *)
Definition getItem (k : string) (localStorage : gmap string string) : option string :=
  localStorage !! k.
Definition setItem (k v : string) (localStorage : gmap string string)
  : gmap string string := <[k := v]> localStorage.

(** [if (x)] on the result of [getItem]: [null] and the empty string are
    falsy. *)
Definition truthy (x : option string) : bool :=
  match x with
  | Some (String _ _) => true
  | _ => false
  end.

Definition savePlan (this : ProjectPlanner) (localStorage : gmap string string)
  : gmap string string :=
  setItem "uxSelectedTasks" (stringify (idsToJson (selectedTasks this)))
    (setItem "uxProjectPlan" (stringify (planToJson (projectPlan this)))
       localStorage).

(** The part of the page [loadSavedPlan] consults: [document.querySelector]
    throws on a selector it cannot parse, and the selector is built from the
    restored id. *)
Record Document : Type := {
  invalidSelector : string → bool
}.

(** How a block of statements ends: normally, by a thrown exception (the
    state reached so far is kept), or with a value outside the typed data
    model above. *)
Inductive completion (A : Type) : Type :=
| Normal (a : A)
| Throw (a : A)
| Untyped.
Arguments Normal {A} a.
Arguments Throw {A} a.
Arguments Untyped {A}.

Definition andThen {A} (c : completion A) (f : A → completion A) : completion A :=
  match c with
  | Normal a => f a
  | Throw a => Throw a
  | Untyped => Untyped
  end.

(** [if (savedPlan) this.projectPlan = JSON.parse(savedPlan)] *)
Definition restorePlan (savedPlan : option string) (this : ProjectPlanner)
  : completion ProjectPlanner :=
  match savedPlan with
  | Some text =>
      if truthy savedPlan then
        match JSON.parse text with
        | Parsed v =>
            match planOfJson v with
            | Some plan =>
                Normal {| selectedTasks := selectedTasks this; projectPlan := plan |}
            | None => Untyped
            end
        | SyntaxError => Throw this
        | Unsupported => Untyped
        end
      else Normal this
  | None => Normal this
  end.

(** [taskIds.forEach(...)] over an array of strings *)
Fixpoint restoreIds (document : Document) (taskIds : list string)
    (this : ProjectPlanner) : completion ProjectPlanner :=
  match taskIds with
  | [] => Normal this
  | taskId :: rest =>
      let this' := {| selectedTasks := Set_add taskId (selectedTasks this);
                      projectPlan := projectPlan this |} in
      if invalidSelector document taskId then Throw this'
      else restoreIds document rest this'
  end.

(** [if (savedTasks) { const taskIds = JSON.parse(savedTasks); ... }]: a
    parsed value that is not an array has no [forEach], hence a [TypeError]. *)
Definition restoreSelected (document : Document) (savedTasks : option string)
    (this : ProjectPlanner) : completion ProjectPlanner :=
  match savedTasks with
  | Some text =>
      if truthy savedTasks then
        match JSON.parse text with
        | Parsed (JArray vs) =>
            match mapM stringOfJson vs with
            | Some taskIds => restoreIds document taskIds this
            | None => Untyped
            end
        | Parsed _ => Throw this
        | SyntaxError => Throw this
        | Unsupported => Untyped
        end
      else Normal this
  | None => Normal this
  end.

(** What the [catch] block writes to [console.error]. *)
Definition loadError : list string := ["Error loading saved plan:"].

(** The result of [loadSavedPlan]: the instance and what was written to
    [console.error]. *)
Inductive loaded : Type :=
| Loaded (this : ProjectPlanner) (console : list string)
| OutsideModel.

Definition loadSavedPlan (document : Document) (localStorage : gmap string string)
    (this : ProjectPlanner) : loaded :=
  let savedPlan := getItem "uxProjectPlan" localStorage in
  let savedTasks := getItem "uxSelectedTasks" localStorage in
  match andThen (restorePlan savedPlan this) (restoreSelected document savedTasks) with
  | Normal this' => Loaded this' []
  | Throw this' => Loaded this' loadError
  | Untyped => OutsideModel
  end.

(** How a persisted value can be unusable: absent ([null], or the empty
    string, which [if (x)] treats alike), or present but rejected by
    [JSON.parse]. *)
Definition absent (x : option string) : Prop := truthy x = false.

Definition failsToParse (x : option string) : Prop :=
  ∃ text, x = Some text ∧ truthy x = true ∧ JSON.parse text = SyntaxError.

Definition unusable (x : option string) : Prop := absent x ∨ failsToParse x.

(** A persisted plan that can be restored. *)
Definition restorable (x : option string) (plan : list Task) : Prop :=
  ∃ text v, x = Some text ∧ truthy x = true
            ∧ JSON.parse text = Parsed v ∧ planOfJson v = Some plan.

(** Persisted ids that can be read: the text of an array of strings. *)
Definition restorableIds (x : option string) (taskIds : list string) : Prop :=
  ∃ text vs, x = Some text ∧ truthy x = true
             ∧ JSON.parse text = Parsed (JArray vs)
             ∧ mapM stringOfJson vs = Some taskIds.

(** ** Selection *)

(** What [handleTaskSelection] reads from the checkbox: its state and the
    data of the enclosing task card ([taskCard.dataset.task] is the [id] of
    the extracted record). *)
Record Checkbox : Type := {
  checked : bool;
  taskCard : Task
}.

Definition handleTaskSelection (checkbox : Checkbox) (this : ProjectPlanner)
    (localStorage : gmap string string) : ProjectPlanner * gmap string string :=
  let taskId := id (taskCard checkbox) in
  let taskData := taskCard checkbox in
  let this' :=
    if checked checkbox then
      {| selectedTasks := Set_add taskId (selectedTasks this);
         projectPlan := addToProjectPlan taskData (projectPlan this) |}
    else
      {| selectedTasks := Set_delete taskId (selectedTasks this);
         projectPlan := removeFromProjectPlan taskId (projectPlan this) |} in
  (this', savePlan this' localStorage).

(** The two operations of the selection store. *)
Definition select (t : Task) (this : ProjectPlanner) : ProjectPlanner :=
  (handleTaskSelection {| checked := true; taskCard := t |} this ∅).1.

Definition deselect (t : Task) (this : ProjectPlanner) : ProjectPlanner :=
  (handleTaskSelection {| checked := false; taskCard := t |} this ∅).1.

(** A sequence of change events. *)
Definition handleAll (events : list Checkbox) (this : ProjectPlanner)
    (localStorage : gmap string string) : ProjectPlanner * gmap string string :=
  fold_left (λ w checkbox, handleTaskSelection checkbox w.1 w.2) events
    (this, localStorage).

(** The invariant of the selection store. *)
Definition consistent (this : ProjectPlanner) : Prop :=
  NoDup (selectedTasks this) ∧ map id (projectPlan this) = selectedTasks this.

(** ** Plain objects used as dictionaries *)

Module JSObject.

(** The own properties of an object created by [{}], in creation order. *)
Definition object (V : Type) : Type := list (string * V).

(** The property names every plain object inherits from
    [Object.prototype]; each holds a function or (for [__proto__]) the
    prototype object itself: truthy values without a [push] method. *)
Definition prototypeKeys : list string :=
  ["constructor"; "__defineGetter__"; "__defineSetter__"; "hasOwnProperty";
   "__lookupGetter__"; "__lookupSetter__"; "isPrototypeOf";
   "propertyIsEnumerable"; "toString"; "valueOf"; "__proto__";
   "toLocaleString"].

Inductive property (V : Type) : Type :=
| Own (v : V)
| Inherited
| Undefined.
Arguments Own {V} v.
Arguments Inherited {V}.
Arguments Undefined {V}.

Fixpoint getOwn {V} (o : object V) (k : string) : option V :=
  match o with
  | [] => None
  | (k', v) :: o' => if bool_decide (k' = k) then Some v else getOwn o' k
  end.

(** [o[k]] *)
Definition get {V} (o : object V) (k : string) : property V :=
  match getOwn o k with
  | Some v => Own v
  | None => if bool_decide (k ∈ prototypeKeys) then Inherited else Undefined
  end.

(** [o[k] = v] for a key that is not inherited: an existing property
    keeps its place, a new one is created last. *)
Fixpoint set {V} (o : object V) (k : string) (v : V) : object V :=
  match o with
  | [] => [(k, v)]
  | (k', v') :: o' =>
      if bool_decide (k' = k) then (k, v) :: o' else (k', v') :: set o' k v
  end.

(** An array index: the canonical decimal text of an integer below
    2^32 - 1. *)
Definition isArrayIndex (k : string) : bool :=
  match list_ascii_of_string k with
  | [] => false
  | d :: ds =>
      forallb isDigit (d :: ds)
      && (negb (bool_decide (d = "0"%char)) || bool_decide (ds = []))
      && (length (d :: ds) <=? 10)%nat
      && (parseInt (d :: ds) <? 4294967295)%Z
  end.

Definition indexOf (k : string) : Z := parseInt (list_ascii_of_string k).

Fixpoint insertBy {A} (key : A → Z) (x : A) (l : list A) : list A :=
  match l with
  | [] => [x]
  | y :: l' =>
      if (key x <=? key y)%Z then x :: y :: l' else y :: insertBy key x l'
  end.

Definition sortBy {A} (key : A → Z) (l : list A) : list A :=
  foldr (insertBy key) [] l.

(** The order of OrdinaryOwnPropertyKeys on items named by [name]:
    array-index names in ascending numeric order, then the other names in
    creation order. *)
Definition ownKeyOrder {A} (name : A → string) (l : list A) : list A :=
  sortBy (λ x, indexOf (name x)) (filter (λ x, isArrayIndex (name x) = true) l)
    ++ filter (λ x, isArrayIndex (name x) ≠ true) l.

(** [Object.entries(o)] and [Object.keys(o)] *)
Definition entries {V} (o : object V) : list (string * V) := ownKeyOrder fst o.
Definition keys {V} (o : object V) : list string := (entries o).*1.

End JSObject.

Import JSObject.

(** ** groupTasksByCategory *)

(** One iteration of the [forEach]: [categories[task.category]] is the own
    array, an inherited value (truthy, and [push] on it is not a function:
    [TypeError]), or [undefined]. *)
Definition groupTask (categories : object (list Task)) (task : Task)
  : completion (object (list Task)) :=
  match get categories (category task) with
  | Own tasks => Normal (set categories (category task) (tasks ++ [task]))
  | Inherited => Throw categories
  | Undefined => Normal (set categories (category task) [task])
  end.

Fixpoint groupTasks (plan : list Task) (categories : object (list Task))
  : completion (object (list Task)) :=
  match plan with
  | [] => Normal categories
  | task :: plan' => andThen (groupTask categories task) (groupTasks plan')
  end.

Definition groupTasksByCategory (this : ProjectPlanner)
  : completion (object (list Task)) :=
  groupTasks (projectPlan this) [].

(** The grouping in the words of the specification: scan the plan once and
    record a category the first time it is seen; a bucket holds the tasks of
    its category in plan order. *)
Definition firstSeen (categories : list string) : list string :=
  fold_left (λ seen c, if bool_decide (c ∈ seen) then seen else seen ++ [c])
    categories [].

Definition bucket (plan : list Task) (c : string) : list Task :=
  filter (λ task, category task = c) plan.

Definition buckets (plan : list Task) (order : list string)
  : list (string * list Task) :=
  map (λ c, (c, bucket plan c)) order.

(** The own properties after grouping a plan: one bucket per category, in
    first-seen (creation) order. *)
Definition grouped (plan : list Task) : object (list Task) :=
  buckets plan (firstSeen (map category plan)).

(** ** generateTimeline *)

Record Timeline : Type := {
  timeline : list TimelineItem.t;
  totalDays : Z
}.

(** The body of the [forEach] of [generateTimeline].  The additions are
    those of the source as long as the running total stays a safe integer
    ([exactSchedule] below). *)
Definition scheduleTask (acc : Timeline) (task : Task) : Timeline :=
  let duration := parseDuration (duration task) in
  {| timeline :=
       timeline acc ++
         [{| TimelineItem.task := title task;
             TimelineItem.startDay := totalDays acc + 1;
             TimelineItem.endDay := totalDays acc + duration;
             TimelineItem.duration := duration |}];
     totalDays := totalDays acc + duration |}.

Definition generateTimeline (this : ProjectPlanner) : Timeline :=
  fold_left scheduleTask (projectPlan this) {| timeline := []; totalDays := 0 |}.

(** The schedule in the words of the specification: the task after day
    [day] runs from [day + 1] for its duration, the next one follows. *)
Fixpoint backToBack (day : Z) (plan : list Task) : list TimelineItem.t :=
  match plan with
  | [] => []
  | task :: plan' =>
      let duration := parseDuration (duration task) in
      {| TimelineItem.task := title task;
         TimelineItem.startDay := day + 1;
         TimelineItem.endDay := day + duration;
         TimelineItem.duration := duration |}
        :: backToBack (day + duration) plan'
  end.

(** A copy of a task with another duration text. *)
Definition withDuration (t : Task) (text : string) : Task :=
  {| id := id t; title := title t; description := description t;
     duration := text; difficulty := difficulty t; category := category t |}.

(** ** createPlanDocument and generateProjectPlan *)

(** Dates are day numbers: the local calendar day, counted from 1 January
    1970.  A [Date] of the source holds a day within 100,000,000 days of
    that day and is an invalid date beyond; the day numbers are those of the
    source within that range ([validDates] below).  The texts produced by
    [toLocaleDateString] and by the template [`${totalDays} days`] are left
    to the renderers. *)
Record PlanDocument : Type := {
  doc_title : string;
  createdDate : Z;
  estimatedDuration : Z;
  estimatedCompletion : Z;
  taskCount : nat;
  categories : nat;
  tasksByCategory : object (list Task);
  doc_timeline : list TimelineItem.t;
  doc_totalDays : Z
}.

Definition createPlanDocument (today : Z) (this : ProjectPlanner)
    (tasksByCategory : object (list Task)) (schedule : Timeline) : PlanDocument :=
  {| doc_title := "UX Project Plan";
     createdDate := today;
     estimatedDuration := totalDays schedule;
     estimatedCompletion := today + totalDays schedule;
     taskCount := length (projectPlan this);
     categories := length (keys tasksByCategory);
     tasksByCategory := tasksByCategory;
     doc_timeline := timeline schedule;
     doc_totalDays := totalDays schedule |}.

(** How far [generateProjectPlan] gets: the alert on an empty selection; a
    [TypeError] thrown by [groupTasksByCategory], before any document
    exists; or the call of [showPlanModal] with the document that
    [createPlanDocument] built.  What [showPlanModal] and [bindModalEvents]
    then do with the page is not modelled: they build markup from the task
    texts and look up the buttons in it, and throw when a text breaks the
    markup so that a button is missing. *)
Inductive generated : Type :=
| Alert (message : string)
| PlanModal (planDocument : PlanDocument)
| TypeError.

Definition generateProjectPlan (today : Z) (this : ProjectPlanner) : generated :=
  if bool_decide (Set_size (selectedTasks this) = 0%nat) then
    Alert "Please select at least one task to create a project plan."
  else
    match groupTasksByCategory this with
    | Normal tasksByCategory =>
        let schedule := generateTimeline this in
        PlanModal (createPlanDocument today this tasksByCategory schedule)
    | _ => TypeError
    end.

(** ** formatCategoryName *)

(** [toUpperCase] on ASCII text.  The method of the source also maps the
    letters beyond ASCII, some of them to two characters; the statements
    about [formatCategoryName] are restricted to a first character in the
    ASCII range. *)
Definition toUpperCase (s : list ascii) : list ascii := map toUpperAscii s.

(** [s.charAt(0)] and [s.slice(1)] *)
Definition charAt0 (s : list ascii) : list ascii := take 1 s.
Definition slice1 (s : list ascii) : list ascii := drop 1 s.

(** [s.replace(pattern, replacement)] with a string pattern: the first
    occurrence only (the replacement here contains no [$]). *)
Fixpoint replace (pattern replacement s : list ascii) : list ascii :=
  match stripPrefix pattern s with
  | Some rest => replacement ++ rest
  | None =>
      match s with
      | [] => []
      | a :: s' => a :: replace pattern replacement s'
      end
  end.

Definition formatCategoryName (category : string) : string :=
  let c := list_ascii_of_string category in
  string_of_list_ascii
    (toUpperCase (charAt0 c) ++ replace ["-"%char] [" "%char] (slice1 c)).

(** The formatting in the words of the claim about it: upper-case the first
    character, then replace the first hyphen of the text by a space. *)
Definition claimedFormat (category : string) : string :=
  let c := list_ascii_of_string category in
  string_of_list_ascii
    (replace ["-"%char] [" "%char] (toUpperCase (charAt0 c) ++ slice1 c)).

(** The positions of the hyphens of a text, from position [i] on. *)
Fixpoint hyphensFrom (i : nat) (s : list ascii) : list nat :=
  match s with
  | [] => []
  | a :: s' =>
      if bool_decide (a = "-"%char) then i :: hyphensFrom (S i) s'
      else hyphensFrom (S i) s'
  end.

Definition hyphens (s : string) : list nat := hyphensFrom 0 (list_ascii_of_string s).

(** ** Sample data for the examples *)

Definition sampleTask (i text c : string) : Task :=
  {| id := i; title := "Task " +:+ i; description := "About " +:+ i;
     duration := text; difficulty := "Beginner"; category := c |}.

(** A stand-in for a page in examples in which no id, or only ids of
    letters, is looked up: it accepts every selector.  (An actual page
    rejects the selectors of some ids; [quotePage] below rejects one.) *)
Definition plainPage : Document := {| invalidSelector := λ _, false |}.

(** One task selected. *)
Definition oneSelected : ProjectPlanner :=
  {| selectedTasks := ["a"]; projectPlan := [sampleTask "a" "1 week" "design"] |}.

(** Categories b, 10, 2 and categories x, y, x, z, in plan order. *)
Definition indexCategories : ProjectPlanner :=
  {| selectedTasks := ["1"; "2"; "3"];
     projectPlan := [sampleTask "1" "1 day" "b"; sampleTask "2" "1 day" "10";
                     sampleTask "3" "1 day" "2"] |}.

Definition repeatedCategories : ProjectPlanner :=
  {| selectedTasks := ["1"; "2"; "3"; "4"];
     projectPlan := [sampleTask "1" "1 day" "x"; sampleTask "2" "1 day" "y";
                     sampleTask "3" "1 day" "x"; sampleTask "4" "1 day" "z"] |}.

(** One selected task whose category names a property every object
    inherits. *)
Definition inheritedCategory : ProjectPlanner :=
  {| selectedTasks := ["t1"];
     projectPlan := [sampleTask "t1" "2-4 days" "constructor"] |}.

(** Storage holding an unparsable plan, and storage holding a valid plan
    and no selected ids. *)
Definition brokenStorage : gmap string string := setItem "uxProjectPlan" "[{" ∅.

Definition planOnlyStorage : gmap string string :=
  setItem "uxProjectPlan"
    (stringify (planToJson [sampleTask "a" "1 day" "general"])) ∅.

(** ** showCurrentPlan *)

Definition showCurrentPlan (today : Z) (this : ProjectPlanner) : generated :=
  if bool_decide (length (projectPlan this) = 0%nat) then
    Alert "No tasks selected yet. Select some tasks first!"
  else generateProjectPlan today this.

(** ** updateSelectedCount *)

(** Which of the elements [#selected-count] and [#create-plan-btn] the page
    has. *)
Record Controls : Type := {
  hasSelectedCount : bool;
  hasCreatePlanBtn : bool
}.

(** The two properties of the button that [updateSelectedCount] assigns. *)
Record Button : Type := {
  textContent : string;
  disabled : bool
}.

(** What [updateSelectedCount] leaves on the page: the text of the count
    element and the state of the button, for the elements that exist. *)
Record Affordances : Type := {
  selectedCount : option string;
  createPlanBtn : option Button
}.

(** The text of a non-negative integer, as a template literal or an
    assignment to [textContent] produces it. *)
Definition numberToString (n : nat) : string :=
  NilEmpty.string_of_uint (Nat.to_uint n).

Definition updateSelectedCount (page : Controls) (this : ProjectPlanner)
  : Affordances :=
  let size := Set_size (selectedTasks this) in
  {| selectedCount :=
       if hasSelectedCount page then Some (numberToString size) else None;
     createPlanBtn :=
       if hasCreatePlanBtn page then
         Some (if bool_decide (0 < size)%nat then
                 {| textContent :=
                      "Create Plan (" +:+ numberToString size +:+ " tasks)";
                    disabled := false |}
               else
                 {| textContent := "Create Project Plan"; disabled := true |})
       else None |}.

(** ** init *)

(** The instance after the constructor has run [init]: the restored state,
    what was logged, and the page controls.  The listeners installed by
    [bindEvents] are not part of the state. *)
Inductive started : Type :=
| Started (this : ProjectPlanner) (console : list string) (view : Affordances)
| StartOutsideModel.

Definition init (document : Document) (page : Controls)
    (localStorage : gmap string string) : started :=
  match loadSavedPlan document localStorage constructed with
  | Loaded this console => Started this console (updateSelectedCount page this)
  | OutsideModel => StartOutsideModel
  end.

(** ** Vocabulary for the properties of timelines and documents *)

(** The parsed durations of a plan, and their sum. *)
Definition durations (plan : list Task) : list Z :=
  map (λ t, parseDuration (duration t)) plan.

Definition sumZ (l : list Z) : Z := foldr Z.add 0 l.

(** The timeline entry of a task scheduled after day [day]. *)
Definition entryAfter (day : Z) (t : Task) : TimelineItem.t :=
  {| TimelineItem.task := title t;
     TimelineItem.startDay := day + 1;
     TimelineItem.endDay := day + parseDuration (duration t);
     TimelineItem.duration := parseDuration (duration t) |}.

(** A category that names a property every plain object inherits. *)
Definition inherited (t : Task) : Prop := category t ∈ prototypeKeys.

(** A plan on which [generateTimeline] computes without rounding: every
    duration is parsed exactly and the total is a safe integer, hence so is
    every running total and every start and end day. *)
Definition exactSchedule (plan : list Task) : bool :=
  forallb (λ t, exactDuration (duration t)) plan
  && (sumZ (durations plan) <=? MAX_SAFE_INTEGER)%Z.

(** The last day on which a [Date] is certainly valid: two days before the
    limit of 100,000,000 days after 1 January 1970, which covers the time of
    day and the offset of the local time zone. *)
Definition maxDay : Z := 99999998.

(** Whether the creation day and the completion day of a plan of [total]
    days are valid dates. *)
Definition validDates (today total : Z) : bool :=
  (0 <=? today)%Z && (today + total <=? maxDay)%Z.

(** ** Sample data for the further examples *)

(** An id that starts with a double quote, and a page on which the selector
    built from it is rejected while the other selectors are valid. *)
Definition quotedId : string := String "034"%char "b".

Definition quotePage : Document :=
  {| invalidSelector := λ i, bool_decide (i = quotedId) |}.

Definition quotedSelected : ProjectPlanner :=
  {| selectedTasks := ["a"; quotedId; "c"];
     projectPlan := [sampleTask "a" "1 week" "design"] |}.

(** Storage in which the id a is listed twice. *)
Definition repeatedIdStorage : gmap string string :=
  setItem "uxSelectedTasks" (stringify (idsToJson ["a"; "a"; "b"])) ∅.

(** Storage holding a valid plan and, as selected ids, a JSON object instead
    of an array. *)
Definition objectIdsStorage : gmap string string :=
  setItem "uxSelectedTasks" "{}" planOnlyStorage.

(** Storage holding no plan and an unparsable id value; storage holding a
    valid plan and an unparsable id value; storage holding no plan and the
    ids a and b. *)
Definition brokenIdsStorage : gmap string string :=
  setItem "uxSelectedTasks" "[{" ∅.

Definition planBrokenIdsStorage : gmap string string :=
  setItem "uxSelectedTasks" "[{" planOnlyStorage.

Definition idsOnlyStorage : gmap string string :=
  setItem "uxSelectedTasks" (stringify (idsToJson ["a"; "b"])) ∅.

(** Two tasks selected, with durations of 7 and 3 days. *)
Definition twoSelected : ProjectPlanner :=
  {| selectedTasks := ["a"; "b"];
     projectPlan := [sampleTask "a" "1 week" "design";
                     sampleTask "b" "2-4 days" "research"] |}.

(** * Properties *)

(** ** The matcher *)

Section MatcherFacts.

Lemma repeatMatcher_sound (m : matcher) r :
  (∀ s c k res, m s c k = Some res →
      ∃ s1 c1, Matches r s c s1 c1 ∧ k s1 c1 = Some res) →
  ∀ fuel s c k res, repeatMatcher fuel m s c k = Some res →
    ∃ s1 c1, Matches (Star r) s c s1 c1 ∧ k s1 c1 = Some res.
Proof.
  intros Hm fuel. induction fuel as [|fuel IH]; intros s c k res H; simpl in H.
  - exists s, c. split; [constructor | done].
  - destruct (m s c _) as [res'|] eqn:E.
    + injection H as ->.
      apply Hm in E as (s1 & c1 & Hr & Hk).
      case_bool_decide; [|done].
      apply IH in Hk as (s2 & c2 & Hstar & Hk).
      exists s2, c2. split; [|done]. by eapply M_StarStep.
    + exists s, c. split; [constructor | done].
Qed.

(** Soundness of the backtracking matcher. *)
Lemma compile_sound r :
  ∀ s c k res, compile r s c k = Some res →
    ∃ s1 c1, Matches r s c s1 c1 ∧ k s1 c1 = Some res.
Proof.
  induction r as [|p|r1 IH1 r2 IH2|r1 IH1 r2 IH2|r IH|n r IH];
    intros s c k res H; simpl in H.
  - exists s, c. split; [constructor | done].
  - destruct s as [|a s]; [done|]. destruct (p a) eqn:Hp; [|done].
    exists s, c. split; [by constructor | done].
  - apply IH1 in H as (s1 & c1 & H1 & H).
    apply IH2 in H as (s2 & c2 & H2 & H).
    exists s2, c2. split; [by econstructor | done].
  - destruct (compile r1 s c k) as [res'|] eqn:E.
    + injection H as ->. apply IH1 in E as (s1 & c1 & H1 & Hk).
      exists s1, c1. split; [by apply M_AltL | done].
    + apply IH2 in H as (s1 & c1 & H1 & Hk).
      exists s1, c1. split; [by apply M_AltR | done].
  - by eapply repeatMatcher_sound.
  - apply IH in H as (s1 & c1 & H1 & Hk).
    eexists s1, _. split; [by constructor | done].
Qed.

Lemma exec_sound r s m :
  exec r s = Some m → ∃ pre s0 s1, s = pre ++ s0 ∧ Matches r s0 ∅ s1 m.
Proof.
  induction s as [|a s IH]; simpl.
  - destruct (matchAt r []) as [c|] eqn:E; [|done].
    intros [= ->]. apply compile_sound in E as (s1 & c1 & HM & [= ->]).
    by exists [], [], s1.
  - destruct (matchAt r (a :: s)) as [c|] eqn:E.
    + intros [= ->]. apply compile_sound in E as (s1 & c1 & HM & [= ->]).
      by exists [], (a :: s), s1.
    + intros H. apply IH in H as (pre & s0 & s1 & -> & HM).
      by exists (a :: pre), s0, s1.
Qed.

(** A starred class consumes a run of the class and captures nothing. *)
Lemma Matches_star_class p s c s1 c1 :
  Matches (Star (Char p)) s c s1 c1 →
  c1 = c ∧ ∃ ds, s = ds ++ s1 ∧ Forall (λ a, p a = true) ds.
Proof.
  intros H. remember (Star (Char p)) as r eqn:Hr.
  induction H; try discriminate.
  - split; [done|]. by exists [].
  - injection Hr as ->. specialize (IHMatches2 eq_refl) as (-> & ds & -> & Hds).
    inversion H; subst. split; [done|].
    exists (a :: ds). split; [done|]. by constructor.
Qed.

Lemma Matches_plus_class p s c s1 c1 :
  Matches (Plus (Char p)) s c s1 c1 →
  c1 = c ∧ ∃ d ds, s = d :: ds ++ s1 ∧ Forall (λ a, p a = true) (d :: ds).
Proof.
  intros H. inversion H as [| |? ? ? ? s0 c0 ? ? H1 H2| | | | |]; subst.
  inversion H1; subst.
  apply Matches_star_class in H2 as (-> & ds & -> & Hds).
  split; [done|]. exists a, ds. split; [done|]. by constructor.
Qed.

Lemma Matches_chr a s c s1 c1 :
  Matches (chr a) s c s1 c1 → s = a :: s1 ∧ c1 = c.
Proof.
  intros H. inversion H; subst. by case_bool_decide; simplify_eq.
Qed.

Lemma Matches_litI w s c s1 c1 :
  Matches (litI w) s c s1 c1 →
  c1 = c ∧ ∃ u, s = u ++ s1 ∧ map toUpperAscii u = map toUpperAscii w.
Proof.
  revert s. induction w as [|a w IH]; intros s H; simpl in H.
  - inversion H; subst. split; [done|]. by exists [].
  - inversion H as [| |? ? ? ? s0 c0 ? ? H1 H2| | | | |]; subst.
    inversion H1; subst. case_bool_decide; [|done].
    apply IH in H2 as (-> & u & -> & Hu).
    split; [done|]. exists (a0 :: u). split; [done|]. simpl. congruence.
Qed.

Lemma take_consumed (u s1 : list ascii) :
  take (length (u ++ s1) - length s1) (u ++ s1) = u.
Proof.
  rewrite length_app, Nat.add_sub. by rewrite take_app_length.
Qed.

Lemma Matches_Seq_inv r1 r2 s c s2 c2 :
  Matches (Seq r1 r2) s c s2 c2 →
  ∃ s1 c1, Matches r1 s c s1 c1 ∧ Matches r2 s1 c1 s2 c2.
Proof. intros H. inversion H; subst. eauto. Qed.

Lemma Matches_Alt_inv r1 r2 s c s1 c1 :
  Matches (Alt r1 r2) s c s1 c1 → Matches r1 s c s1 c1 ∨ Matches r2 s c s1 c1.
Proof. intros H. inversion H; subst; eauto. Qed.

Lemma Matches_Group_inv n r s c s1 c' :
  Matches (Group n r) s c s1 c' →
  ∃ c1, Matches r s c s1 c1 ∧ c' = <[n := take (length s - length s1) s]> c1.
Proof. intros H. inversion H; subst. eauto. Qed.

Lemma Matches_Empty_inv s c s1 c1 : Matches Empty s c s1 c1 → s1 = s ∧ c1 = c.
Proof. intros H. by inversion H. Qed.

Lemma Matches_group_plus n p s c s1 c' :
  Matches (Group n (Plus (Char p))) s c s1 c' →
  ∃ d ds, s = d :: ds ++ s1 ∧ Forall (λ a, p a = true) (d :: ds)
          ∧ c' = <[n := d :: ds]> c.
Proof.
  intros H. apply Matches_Group_inv in H as (c1 & H & ->).
  apply Matches_plus_class in H as (-> & d & ds & -> & Hds).
  exists d, ds. split_and!; [done..|].
  f_equal. exact (take_consumed (d :: ds) s1).
Qed.

End MatcherFacts.

(** ** Code units *)

Lemma allAscii_complete a : a ∈ allAscii.
Proof.
  rewrite <- (ascii_nat_embedding a). apply list_elem_of_fmap_2.
  apply elem_of_seq. pose proof (nat_ascii_bounded a). lia.
Qed.

Lemma forall_ascii (P : ascii → bool) :
  forallb P allAscii = true → ∀ a, P a = true.
Proof.
  intros H a. rewrite forallb_forall in H. apply H.
  apply list_elem_of_In, allAscii_complete.
Qed.

(** Two code units that agree under the [i] flag have the same lower case. *)
Lemma sameLetter a b :
  toUpperAscii b = toUpperAscii a → toLowerAscii b = toLowerAscii a.
Proof.
  pose (P := λ a, forallb (λ b,
    implb (bool_decide (toUpperAscii b = toUpperAscii a))
          (bool_decide (toLowerAscii b = toLowerAscii a))) allAscii).
  assert (HP : forallb P allAscii = true) by (vm_compute; reflexivity).
  pose proof (forall_ascii _ (forall_ascii P HP a) b) as H. simpl in H.
  intros E. rewrite bool_decide_eq_true_2 in H by done.
  by apply bool_decide_eq_true_1 in H.
Qed.

Lemma sameWord u w :
  map toUpperAscii u = map toUpperAscii w → toLowerCase u = toLowerCase w.
Proof.
  revert w. induction u as [|a u IH]; intros [|b w]; simpl; try done.
  intros [= Ha Hu]. unfold toLowerCase in *. simpl.
  f_equal; [by apply sameLetter | by apply IH].
Qed.

Lemma Forall_forallb_true {A} (p : A → bool) l :
  Forall (λ a, p a = true) l → forallb p l = true.
Proof. induction 1 as [|a l Ha _ IH]; simpl; [done|]. by rewrite Ha, IH. Qed.

Lemma forallb_true_Forall {A} (p : A → bool) l :
  forallb p l = true → Forall (λ a, p a = true) l.
Proof.
  induction l as [|a l IH]; simpl; [constructor|].
  intros [Ha Hl]%andb_prop. constructor; auto.
Qed.

(** ** parseDuration *)

(** Every match of the duration pattern sits on a text of the expected
    shape and captures its parts. *)
Lemma duration_match_shape s m :
  exec durationRe s = Some m →
  ∃ pre n om ws u tail,
    s = pre ++ boundsText n om ++ ws ++ u ++ tail
    ∧ numeral n = true
    ∧ from_option numeral true om = true
    ∧ blank ws = true
    ∧ (toLowerCase u = list_ascii_of_string "day"
       ∨ toLowerCase u = list_ascii_of_string "week")
    ∧ m = durationCaptures n om u.
Proof.
  intros H. apply exec_sound in H as (pre & s0 & s1 & -> & H).
  unfold durationRe in H.
  apply Matches_Seq_inv in H as (sA & cA & H1 & H).
  apply Matches_group_plus in H1 as (d & ds & -> & Hn & ->).
  apply Matches_Seq_inv in H as (sB & cB & H2 & H).
  apply Matches_Seq_inv in H as (sC & cC & H3 & H4).
  apply Matches_star_class in H3 as (-> & ws & -> & Hws).
  apply Matches_Group_inv in H4 as (cD & H4 & ->).
  assert (∃ u, sC = u ++ s1 ∧ cD = cB ∧
            (toLowerCase u = list_ascii_of_string "day"
             ∨ toLowerCase u = list_ascii_of_string "week"))
    as (u & -> & -> & Hu).
  { apply Matches_Alt_inv in H4 as [H4|H4];
      apply Matches_litI in H4 as (-> & u & -> & Hu);
      apply sameWord in Hu; exists u; eauto. }
  rewrite (take_consumed u s1).
  apply Matches_Alt_inv in H2 as [H2|H2].
  - apply Matches_Seq_inv in H2 as (sE & cE & H2 & H5).
    apply Matches_chr in H2 as (-> & ->).
    apply Matches_group_plus in H5 as (e & es & -> & Hm & ->).
    exists pre, (d :: ds), (Some (e :: es)), ws, u, s1.
    split_and!; try done.
    + simpl. f_equal. f_equal. by rewrite <- !app_assoc.
    + by apply (Forall_forallb_true isDigit (d :: ds)).
    + by apply (Forall_forallb_true isDigit (e :: es)).
    + by apply Forall_forallb_true.
  - apply Matches_Empty_inv in H2 as (<- & ->).
    exists pre, (d :: ds), None, ws, u, s1.
    split_and!; try done.
    + by apply (Forall_forallb_true isDigit (d :: ds)).
    + by apply Forall_forallb_true.
Qed.

Lemma parseInt_acc_nonneg ds acc :
  forallb isDigit ds = true → (0 ≤ acc)%Z →
  (0 ≤ fold_left (λ acc a, 10 * acc + digitValue a) ds acc)%Z.
Proof.
  revert acc. induction ds as [|a ds IH]; intros acc Hds Hacc; simpl in *; [done|].
  apply andb_prop in Hds as [Ha Hds]. apply IH; [done|].
  unfold isDigit in Ha. apply andb_prop in Ha as [Ha _].
  apply Nat.leb_le in Ha. unfold digitValue. lia.
Qed.

Lemma parseInt_nonneg ds : numeral ds = true → (0 ≤ parseInt ds)%Z.
Proof.
  intros H. apply parseInt_acc_nonneg; [|done]. by destruct ds.
Qed.

Lemma ceil_pos q : (0 < q)%Q → (1 ≤ ceil q)%Z.
Proof.
  intros Hq. pose proof (Qle_ceiling q) as Hc. unfold ceil.
  assert (0 < inject_Z (Qceiling q))%Q as H by (eapply Qlt_le_trans; eauto).
  unfold Qlt, inject_Z in H. simpl in H. lia.
Qed.

Lemma roundedMidpoint_pos min max week :
  (0 < min + max)%Z → (1 ≤ roundedMidpoint min max week)%Z.
Proof.
  intros H. unfold roundedMidpoint. apply ceil_pos.
  destruct week; unfold Qlt, Qdiv, Qmult, Qinv, inject_Z; simpl; lia.
Qed.

Lemma roundedMidpoint_zero week : roundedMidpoint 0 0 week = 0.
Proof. by destruct week. Qed.

Lemma numeral_nonempty ds : numeral ds = true → ∃ d ds', ds = d :: ds'.
Proof. destruct ds; [done|eauto]. Qed.

(** The value computed from the captures of a match. *)
Lemma parseDuration_of_match s n om u :
  exec durationRe (list_ascii_of_string s) = Some (durationCaptures n om u) →
  from_option numeral true om = true →
  parseDuration s =
    roundedMidpoint (parseInt n) (parseInt (default n om))
      (bool_decide (toLowerCase u = list_ascii_of_string "week")).
Proof.
  intros H Hom. unfold parseDuration. rewrite H.
  unfold capture, truthyGroup, durationCaptures, roundedMidpoint, captures.
  destruct om as [x|]; simpl in *.
  - apply numeral_nonempty in Hom as (e & es & ->).
    by simplify_map_eq.
  - by simplify_map_eq.
Qed.

(** A text without any digit does not match. *)
Lemma exec_no_digit s :
  forallb (λ a, negb (isDigit a)) s = true → exec durationRe s = None.
Proof.
  induction s as [|a s IH]; simpl; [done|].
  intros [Ha Hs]%andb_prop. unfold matchAt. simpl.
  destruct (isDigit a); [done|]. by apply IH.
Qed.

(** ** Matching a text that starts with a duration *)

(** Greedy repetition of a class over a maximal run: the continuation is
    entered after the whole run. *)
Lemma repeatMatcher_run p ds rest c (k : continuation) res fuel :
  Forall (λ a, p a = true) ds →
  startsWith p rest = false →
  (length ds ≤ fuel)%nat →
  k rest c = Some res →
  repeatMatcher fuel (compile (Char p)) (ds ++ rest) c k = Some res.
Proof.
  intros Hds Hrest. revert fuel.
  induction Hds as [|a ds Ha Hds IH]; intros fuel Hfuel Hk.
  - destruct fuel as [|fuel]; [done|]. cbn [app repeatMatcher compile].
    destruct rest as [|b rest]; [by rewrite Hk|].
    simpl in Hrest. by rewrite Hrest, Hk.
  - destruct fuel as [|fuel]; [simpl in Hfuel; lia|].
    cbn [app repeatMatcher compile]. rewrite Ha.
    rewrite bool_decide_eq_true_2 by (simpl; lia).
    rewrite IH; [done | simpl in Hfuel; lia | done].
Qed.

Lemma compile_star_run p ds rest c (k : continuation) res :
  Forall (λ a, p a = true) ds →
  startsWith p rest = false →
  k rest c = Some res →
  compile (Star (Char p)) (ds ++ rest) c k = Some res.
Proof.
  intros Hds Hrest Hk. cbn [compile].
  apply repeatMatcher_run; [done | done | | done].
  rewrite length_app. lia.
Qed.

Lemma compile_group_plus n p ds rest c (k : continuation) res :
  ds ≠ [] →
  Forall (λ a, p a = true) ds →
  startsWith p rest = false →
  k rest (<[n := ds]> c) = Some res →
  compile (Group n (Plus (Char p))) (ds ++ rest) c k = Some res.
Proof.
  intros Hne Hds Hrest Hk. destruct ds as [|d ds]; [done|].
  apply Forall_cons_1 in Hds as [Hd Hds].
  cbn [compile Plus app]. rewrite Hd.
  apply repeatMatcher_run; [done | done | rewrite length_app; lia |].
  pose proof (take_consumed (d :: ds) rest) as E. cbn [app] in E.
  cbv beta. by rewrite E.
Qed.

Lemma compile_litI w u rest c (k : continuation) :
  map toUpperAscii u = map toUpperAscii w →
  compile (litI w) (u ++ rest) c k = k rest c.
Proof.
  revert u. induction w as [|a w IH]; intros [|b u] Hu; try done.
  injection Hu as Hb Hu. cbn [litI compile app chrI].
  rewrite bool_decide_eq_true_2 by done. by apply IH.
Qed.

Lemma compile_litI_mismatch a w b s c (k : continuation) :
  toUpperAscii b ≠ toUpperAscii a →
  compile (litI (a :: w)) (b :: s) c k = None.
Proof.
  intros H. cbn [litI compile chrI]. by rewrite bool_decide_eq_false_2.
Qed.

(** The converse of [sameLetter]. *)
Lemma sameLetter_upper a b :
  toLowerAscii b = toLowerAscii a → toUpperAscii b = toUpperAscii a.
Proof.
  pose (P := λ a, forallb (λ b,
    implb (bool_decide (toLowerAscii b = toLowerAscii a))
          (bool_decide (toUpperAscii b = toUpperAscii a))) allAscii).
  assert (HP : forallb P allAscii = true) by (vm_compute; reflexivity).
  pose proof (forall_ascii _ (forall_ascii P HP a) b) as H. simpl in H.
  intros E. rewrite bool_decide_eq_true_2 in H by done.
  by apply bool_decide_eq_true_1 in H.
Qed.

Lemma sameWord_upper u w :
  toLowerCase u = toLowerCase w → map toUpperAscii u = map toUpperAscii w.
Proof.
  unfold toLowerCase. revert w.
  induction u as [|a u IH]; intros [|b w]; simpl; try done.
  intros [= Ha Hu]. f_equal; [by apply sameLetter_upper | by apply IH].
Qed.

(** The unit alternatives on a text that starts with a unit. *)
Lemma compile_unit u rest c (k : continuation) res :
  toLowerCase u = list_ascii_of_string "day"
  ∨ toLowerCase u = list_ascii_of_string "week" →
  k rest (<[3%nat := u]> c) = Some res →
  compile (Group 3 (Alt (litI (list_ascii_of_string "day"))
                        (litI (list_ascii_of_string "week")))) (u ++ rest) c k
  = Some res.
Proof.
  intros [Hu|Hu] Hk; cbn [compile].
  - rewrite compile_litI by (by apply sameWord_upper).
    by rewrite (take_consumed u rest), Hk.
  - pose proof (sameWord_upper u (list_ascii_of_string "week") Hu) as Hup.
    destruct u as [|b u]; [done|]. injection Hup as Hb Hup.
    change (list_ascii_of_string "day")
      with ("d"%char :: list_ascii_of_string "ay").
    change ((b :: u) ++ rest) with (b :: u ++ rest) at 1.
    rewrite (compile_litI_mismatch "d" _ b).
    2:{ rewrite Hb. by vm_compute. }
    rewrite (compile_litI (list_ascii_of_string "week") (b :: u)).
    2:{ simpl. by rewrite Hb, Hup. }
    by rewrite (take_consumed (b :: u) rest).
Qed.

Lemma unit_head u rest :
  toLowerCase u = list_ascii_of_string "day"
  ∨ toLowerCase u = list_ascii_of_string "week" →
  ∃ b s, u ++ rest = b :: s ∧ isDigit b = false ∧ isSpace b = false
         ∧ b ≠ "-"%char.
Proof.
  intros Hu.
  assert (∃ b u', u = b :: u' ∧ (toLowerAscii b = "d"%char ∨ toLowerAscii b = "w"%char))
    as (b & u' & -> & Hb).
  { destruct Hu as [Hu|Hu]; (destruct u as [|b u]; [done|]);
      injection Hu as Hb _; eauto. }
  exists b, (u' ++ rest). split; [done|].
  pose (P := λ b, implb (bool_decide (toLowerAscii b = "d"%char)
                         || bool_decide (toLowerAscii b = "w"%char))
                   (negb (isDigit b) && negb (isSpace b)
                    && negb (bool_decide (b = "-"%char)))).
  assert (HP : forallb P allAscii = true) by (vm_compute; reflexivity).
  pose proof (forall_ascii P HP b) as H. unfold P in H.
  assert (bool_decide (toLowerAscii b = "d"%char)
          || bool_decide (toLowerAscii b = "w"%char) = true) as E.
  { destruct Hb as [Hb|Hb]; rewrite ?(bool_decide_eq_true_2 _ Hb);
      [done | by rewrite orb_true_r]. }
  rewrite E in H. simpl in H.
  apply andb_prop in H as [[H1 H2]%andb_prop H3].
  apply negb_true_iff in H1, H2, H3.
  split_and!; [done | done |]. by apply bool_decide_eq_false_1 in H3.
Qed.

Lemma blank_unit_head ws u rest :
  blank ws = true →
  toLowerCase u = list_ascii_of_string "day"
  ∨ toLowerCase u = list_ascii_of_string "week" →
  startsWith isDigit (ws ++ u ++ rest) = false
  ∧ ∃ b s, ws ++ u ++ rest = b :: s ∧ b ≠ "-"%char.
Proof.
  intros Hws Hu. destruct (unit_head u rest Hu) as (b & s & E & Hd & Hs & Hm).
  destruct ws as [|a ws].
  - cbn [app]. rewrite E. split; [done | eauto].
  - cbn [app startsWith]. simpl in Hws. apply andb_prop in Hws as [Ha _].
    pose (P := λ a, implb (isSpace a)
                      (negb (isDigit a) && negb (bool_decide (a = "-"%char)))).
    assert (HP : forallb P allAscii = true) by (vm_compute; reflexivity).
    pose proof (forall_ascii P HP a) as H. unfold P in H. rewrite Ha in H.
    simpl in H. apply andb_prop in H as [H1 H2]. apply negb_true_iff in H1, H2.
    split; [done|]. eexists _, _. split; [done|].
    by apply bool_decide_eq_false_1 in H2.
Qed.

Lemma compile_Seq r1 r2 s c k :
  compile (Seq r1 r2) s c k = compile r1 s c (λ s' c', compile r2 s' c' k).
Proof. reflexivity. Qed.

Lemma compile_Opt r s c k :
  compile (Opt r) s c k
  = match compile r s c k with
    | Some x => Some x
    | None => k s c
    end.
Proof. reflexivity. Qed.

Lemma compile_chr_match a s c (k : continuation) :
  compile (chr a) (a :: s) c k = k s c.
Proof. cbn [compile chr]. by rewrite bool_decide_eq_true_2. Qed.

Lemma compile_chr_mismatch a b s c (k : continuation) :
  b ≠ a → compile (chr a) (b :: s) c k = None.
Proof. intros H. cbn [compile chr]. by rewrite bool_decide_eq_false_2. Qed.

(** A text that starts with bounds, a blank and a unit is matched at its
    first position, the bounds and the unit being captured. *)
Lemma matchAt_duration n om ws u tail :
  numeral n = true →
  from_option numeral true om = true →
  blank ws = true →
  toLowerCase u = list_ascii_of_string "day"
  ∨ toLowerCase u = list_ascii_of_string "week" →
  matchAt durationRe (boundsText n om ++ ws ++ u ++ tail)
  = Some (durationCaptures n om u).
Proof.
  intros Hn Hom Hws Hu. unfold matchAt, durationRe.
  destruct (blank_unit_head ws u tail Hws Hu) as (Hnd & b & s & Hb & Hminus).
  destruct (unit_head u tail Hu) as (b' & s' & Hb' & _ & Hsp & _).
  assert (Hn' : n ≠ [] ∧ Forall (λ a, isDigit a = true) n).
  { destruct n; [done|]. split; [done|]. by apply forallb_true_Forall. }
  destruct Hn' as [Hn1 Hn2].
  assert (Hunit : ∀ c,
            compile (Seq (Star (Char isSpace))
                         (Group 3 (Alt (litI (list_ascii_of_string "day"))
                                       (litI (list_ascii_of_string "week")))))
              (ws ++ u ++ tail) c (λ _ c', Some c')
            = Some (<[3%nat := u]> c)).
  { intros c. rewrite compile_Seq. apply compile_star_run.
    - by apply forallb_true_Forall.
    - by rewrite Hb'.
    - by apply compile_unit. }
  rewrite compile_Seq.
  destruct om as [m|]; cbn [boundsText from_option] in *.
  - assert (Hm' : m ≠ [] ∧ Forall (λ a, isDigit a = true) m).
    { destruct m; [done|]. split; [done|]. by apply forallb_true_Forall. }
    destruct Hm' as [Hm1 Hm2].
    rewrite <- app_assoc.
    apply compile_group_plus; [done | done | done |].
    rewrite compile_Seq, compile_Opt, compile_Seq. cbn [app].
    rewrite compile_chr_match.
    rewrite (compile_group_plus 2 isDigit m (ws ++ u ++ tail) _ _
               (durationCaptures n (Some m) u)); [done | done | done | done |].
    apply Hunit.
  - apply compile_group_plus; [done | done | done |].
    rewrite compile_Seq, compile_Opt, compile_Seq. rewrite Hb.
    rewrite compile_chr_mismatch by done. rewrite <- Hb. apply Hunit.
Qed.

(** The leftmost match wins: a text that starts with a duration is parsed
    from its first character. *)
Lemma parseDuration_of_text n om ws u tail :
  numeral n = true →
  from_option numeral true om = true →
  blank ws = true →
  toLowerCase u = list_ascii_of_string "day"
  ∨ toLowerCase u = list_ascii_of_string "week" →
  parseDuration (string_of_list_ascii (boundsText n om ++ ws ++ u ++ tail))
  = roundedMidpoint (parseInt n) (parseInt (default n om))
      (bool_decide (toLowerCase u = list_ascii_of_string "week")).
Proof.
  intros Hn Hom Hws Hu. apply parseDuration_of_match; [|done].
  rewrite list_ascii_of_string_of_list_ascii.
  pose proof (matchAt_duration n om ws u tail Hn Hom Hws Hu) as H.
  destruct (boundsText n om ++ ws ++ u ++ tail); cbn [exec]; by rewrite H.
Qed.

(** The match is the leftmost one, found by backtracking: in "1-2-3" the
    attempt at the first character fails on the second hyphen, and the match
    starts at 2. *)
Example parseDuration_leftmost : parseDuration "about 1-2-3 Weeks or so" = 18.
Proof. by vm_compute. Qed.

Example parseDuration_half_day : parseDuration "1-2 days" = 2.
Proof. by vm_compute. Qed.

Example parseDuration_no_unit : parseDuration "3 hours" = 2.
Proof. by vm_compute. Qed.

(** For every text, [parseDuration] either finds no match and answers 2, or
    finds bounds [N] or [N-M] followed by a blank and a unit, and answers
    the rounded-up midpoint of the bounds, in days. *)
Lemma parseDuration_cases (s : string) :
  (exec durationRe (list_ascii_of_string s) = None ∧ parseDuration s = 2)
  ∨ (∃ pre n om ws u tail,
       list_ascii_of_string s = pre ++ boundsText n om ++ ws ++ u ++ tail
       ∧ numeral n = true
       ∧ from_option numeral true om = true
       ∧ blank ws = true
       ∧ (toLowerCase u = list_ascii_of_string "day"
          ∨ toLowerCase u = list_ascii_of_string "week")
       ∧ parseDuration s =
           roundedMidpoint (parseInt n) (parseInt (default n om))
             (bool_decide (toLowerCase u = list_ascii_of_string "week"))).
Proof.
  destruct (exec durationRe (list_ascii_of_string s)) as [m|] eqn:E.
  - right. pose proof E as E'.
    apply duration_match_shape in E' as (pre & n & om & ws & u & tail & ? & ? & ? & ? & ? & ->).
    exists pre, n, om, ws, u, tail. split_and!; try done.
    by apply parseDuration_of_match.
  - left. split; [done|]. unfold parseDuration. by rewrite E.
Qed.

(** A match whose arithmetic is exact, in the terms of the text. *)
Lemma exactDuration_of_match s n om u :
  exec durationRe (list_ascii_of_string s) = Some (durationCaptures n om u) →
  numeral n = true →
  from_option numeral true om = true →
  exactDuration s
  = exactMidpoint (parseInt n) (parseInt (default n om))
      (bool_decide (toLowerCase u = list_ascii_of_string "week")).
Proof.
  intros E Hn Hom. unfold exactDuration. rewrite E.
  unfold capture, truthyGroup, durationCaptures, captures.
  destruct om as [m|]; simplify_map_eq; [|done].
  destruct m; [done|]. done.
Qed.

(** C6: [parseDuration] computes the midpoint of the extracted bounds.  The
    numbers are those of the source where its arithmetic is exact: the sum
    of the bounds, times 7 for weeks, is at most [MAX_SAFE_INTEGER].  In
    that range, a text that starts with bounds [N] or [N-M] (the maximum
    defaulting to the minimum), a blank and a unit [day] or [week] in any
    letter case gives the midpoint of the bounds, times 7 for weeks, rounded
    up to a whole day.  A text on which the pattern does not match gives the
    fixed default 2.  Every text whose arithmetic is exact falls in one of
    the two cases: no match and 2, or a match on bounds, blank and unit
    somewhere in the text and their rounded-up midpoint.  In particular
    "2-4 days" gives 3, "1 week" gives 7, "3-5 weeks" gives 28 and "garbage"
    gives 2. *)
Theorem parseDuration_midpoint :
  (∀ n om ws u tail,
     numeral n = true →
     from_option numeral true om = true →
     blank ws = true →
     toLowerCase u = list_ascii_of_string "day"
     ∨ toLowerCase u = list_ascii_of_string "week" →
     exactMidpoint (parseInt n) (parseInt (default n om))
       (bool_decide (toLowerCase u = list_ascii_of_string "week")) = true →
     parseDuration (string_of_list_ascii (boundsText n om ++ ws ++ u ++ tail))
     = roundedMidpoint (parseInt n) (parseInt (default n om))
         (bool_decide (toLowerCase u = list_ascii_of_string "week")))
  ∧ (∀ s : string,
       exec durationRe (list_ascii_of_string s) = None → parseDuration s = 2)
  ∧ (∀ s : string,
       exactDuration s = true →
       (exec durationRe (list_ascii_of_string s) = None ∧ parseDuration s = 2)
       ∨ (∃ pre n om ws u tail,
            list_ascii_of_string s = pre ++ boundsText n om ++ ws ++ u ++ tail
            ∧ numeral n = true
            ∧ from_option numeral true om = true
            ∧ blank ws = true
            ∧ (toLowerCase u = list_ascii_of_string "day"
               ∨ toLowerCase u = list_ascii_of_string "week")
            ∧ exactMidpoint (parseInt n) (parseInt (default n om))
                (bool_decide (toLowerCase u = list_ascii_of_string "week"))
              = true
            ∧ parseDuration s =
                roundedMidpoint (parseInt n) (parseInt (default n om))
                  (bool_decide (toLowerCase u = list_ascii_of_string "week"))))
  ∧ parseDuration "2-4 days" = 3
  ∧ parseDuration "1 week" = 7
  ∧ parseDuration "3-5 weeks" = 28
  ∧ parseDuration "garbage" = 2.
Proof.
  split_and!.
  - intros n om ws u tail Hn Hom Hws Hu _. by apply parseDuration_of_text.
  - intros s H. unfold parseDuration. by rewrite H.
  - intros s Hexact.
    destruct (exec durationRe (list_ascii_of_string s)) as [m|] eqn:E.
    + right. pose proof E as E'.
      apply duration_match_shape in E'
        as (pre & n & om & ws & u & tail & Hs & Hn & Hom & Hws & Hu & ->).
      exists pre, n, om, ws, u, tail. split_and!; try done.
      * by rewrite <- (exactDuration_of_match s n om u E Hn Hom).
      * by apply parseDuration_of_match.
    + left. split; [done|]. unfold parseDuration. by rewrite E.
  - by vm_compute.
  - by vm_compute.
  - by vm_compute.
  - by vm_compute.
Qed.

(** C6 at work: "1-2 Weeks" is 1.5 weeks, hence 11 days; a text without a
    duration gives 2; "about 10 days" is exact, matches after its first six
    characters, and gives 10. *)
Lemma parseDuration_midpoint_witness :
  numeral (list_ascii_of_string "1") = true
  ∧ from_option numeral true (Some (list_ascii_of_string "2")) = true
  ∧ blank (list_ascii_of_string " ") = true
  ∧ (toLowerCase (list_ascii_of_string "Week") = list_ascii_of_string "day"
     ∨ toLowerCase (list_ascii_of_string "Week") = list_ascii_of_string "week")
  ∧ exactMidpoint 1 2 true = true
  ∧ parseDuration "1-2 Weeks" = 11
  ∧ exec durationRe (list_ascii_of_string "soon") = None
  ∧ parseDuration "soon" = 2
  ∧ exactDuration "about 10 days" = true
  ∧ exec durationRe (list_ascii_of_string "about 10 days") ≠ None.
Proof.
  assert (H1 : numeral (list_ascii_of_string "1") = true) by reflexivity.
  assert (H2 : from_option numeral true (Some (list_ascii_of_string "2")) = true)
    by reflexivity.
  assert (H3 : blank (list_ascii_of_string " ") = true) by reflexivity.
  assert (H4 : toLowerCase (list_ascii_of_string "Week")
                 = list_ascii_of_string "day"
               ∨ toLowerCase (list_ascii_of_string "Week")
                 = list_ascii_of_string "week")
    by (right; reflexivity).
  assert (H5 : exec durationRe (list_ascii_of_string "soon") = None)
    by (vm_compute; reflexivity).
  assert (H6 : exactMidpoint 1 2 true = true) by reflexivity.
  assert (H7 : exactDuration "about 10 days" = true)
    by (vm_compute; reflexivity).
  split_and!; try assumption.
  - exact (proj1 parseDuration_midpoint (list_ascii_of_string "1")
             (Some (list_ascii_of_string "2")) (list_ascii_of_string " ")
             (list_ascii_of_string "Week") (list_ascii_of_string "s")
             H1 H2 H3 H4 H6).
  - exact (proj1 (proj2 parseDuration_midpoint) "soon" H5).
  - destruct (proj1 (proj2 (proj2 parseDuration_midpoint)) "about 10 days" H7)
      as [[E _]|_].
    + vm_compute in E. discriminate E.
    + vm_compute. discriminate.
Defined.

(** C1, as stated, fails: "0 days" matches with both bounds 0 and the
    answer is 0, not a day count of at least 1. *)
Lemma parseDuration_not_clamped : ¬ (∀ s : string, (1 ≤ parseDuration s)%Z).
Proof.
  intros H. specialize (H "0 days"). vm_compute in H. by apply H.
Qed.

(** C1, amended: for every text the answer is an integer of at least 1,
    except when the pattern matches with both bounds equal to 0, where the
    answer is 0: the result is never negative and there is no clamp. *)
Theorem parseDuration_lower_bound (s : string) :
  (1 ≤ parseDuration s)%Z
  ∨ (parseDuration s = 0
     ∧ ∃ pre n om ws u tail,
         list_ascii_of_string s = pre ++ boundsText n om ++ ws ++ u ++ tail
         ∧ numeral n = true
         ∧ from_option numeral true om = true
         ∧ blank ws = true
         ∧ (toLowerCase u = list_ascii_of_string "day"
            ∨ toLowerCase u = list_ascii_of_string "week")
         ∧ parseInt n = 0
         ∧ parseInt (default n om) = 0).
Proof.
  destruct (parseDuration_cases s) as [[_ ->]|(pre & n & om & ws & u & tail & Hs & Hn & Hom & Hws & Hu & ->)].
  - by left.
  - pose proof (parseInt_nonneg n Hn) as H1.
    assert (0 ≤ parseInt (default n om))%Z as H2.
    { destruct om as [x|]; simpl in *; by apply parseInt_nonneg. }
    destruct (decide (0 < parseInt n + parseInt (default n om))%Z) as [Hpos|Hz].
    + left. by apply roundedMidpoint_pos.
    + right. assert (parseInt n = 0) as E1 by lia.
      assert (parseInt (default n om) = 0) as E2 by lia.
      rewrite E1, E2. split; [apply roundedMidpoint_zero|].
      exists pre, n, om, ws, u, tail. by split_and!.
Qed.

(** ** The selection store *)

Section Selection.

Implicit Types (this : ProjectPlanner) (plan : list Task) (t : Task).

Lemma findIndexFrom_none {A} (p : A → bool) l i :
  (0 ≤ i)%Z →
  (findIndexFrom p l i = -1 ↔ Forall (λ x, p x = false) l)
  ∧ (-1 ≤ findIndexFrom p l i)%Z.
Proof.
  revert i. induction l as [|x l IH]; intros i Hi; simpl.
  - split; [|lia]. split; [constructor | done].
  - destruct (p x) eqn:Hx.
    + split; [|lia]. split; [lia|]. inversion 1; congruence.
    + destruct (IH (i + 1)%Z ltac:(lia)) as [IH1 IH2]. split; [|done].
      rewrite IH1. split; [by constructor | by inversion 1].
Qed.

Lemma addToProjectPlan_fresh t plan :
  id t ∉ map id plan → addToProjectPlan t plan = plan ++ [t].
Proof.
  intros H. unfold addToProjectPlan, findIndex.
  rewrite bool_decide_eq_true_2; [done|].
  apply findIndexFrom_none; [done|].
  apply Forall_forall. intros x Hx. apply bool_decide_eq_false_2.
  intros E. apply H. rewrite <- E. by apply list_elem_of_fmap_2.
Qed.

Lemma addToProjectPlan_present t plan :
  id t ∈ map id plan → addToProjectPlan t plan = plan.
Proof.
  intros H. unfold addToProjectPlan, findIndex.
  rewrite bool_decide_eq_false_2; [done|].
  intros E. apply findIndexFrom_none in E; [|done].
  apply list_elem_of_fmap in H as (x & Hid & Hx).
  rewrite Forall_forall in E. specialize (E x Hx).
  by apply bool_decide_eq_false_1 in E.
Qed.

Lemma Set_add_fresh x (s : list string) : x ∉ s → Set_add x s = s ++ [x].
Proof. intros H. unfold Set_add, Set_has. by rewrite bool_decide_eq_false_2. Qed.

Lemma Set_add_present x (s : list string) : x ∈ s → Set_add x s = s.
Proof. intros H. unfold Set_add, Set_has. by rewrite bool_decide_eq_true_2. Qed.

Lemma removeFromProjectPlan_ids taskId plan :
  map id (removeFromProjectPlan taskId plan) = Set_delete taskId (map id plan).
Proof.
  unfold removeFromProjectPlan, Set_delete.
  induction plan as [|t plan IH]; [done|]. simpl.
  rewrite !filter_cons. destruct (decide (id t ≠ taskId)); simpl; by rewrite IH.
Qed.

Lemma filter_absent {A} (P : A → Prop) `{∀ x, Decision (P x)} (l : list A) :
  Forall P l → filter P l = l.
Proof.
  induction 1 as [|x l Hx _ IH]; [done|].
  rewrite filter_cons, decide_True by done. by rewrite IH.
Qed.

Lemma filter_none {A} (P : A → Prop) `{∀ x, Decision (P x)} (l : list A) :
  Forall (λ x, ¬ P x) l → filter P l = [].
Proof.
  induction 1 as [|x l Hx _ IH]; [done|].
  by rewrite filter_cons, decide_False.
Qed.

Lemma consistent_constructed : consistent constructed.
Proof. split; [constructor | done]. Qed.

Lemma handleTaskSelection_consistent checkbox this localStorage :
  consistent this →
  consistent (handleTaskSelection checkbox this localStorage).1.
Proof.
  intros [Hnd Hids]. unfold handleTaskSelection.
  destruct (checked checkbox); simpl.
  - destruct (decide (id (taskCard checkbox) ∈ selectedTasks this)) as [Hin|Hout].
    + rewrite Set_add_present, addToProjectPlan_present by (by rewrite ?Hids).
      by split.
    + rewrite Set_add_fresh, addToProjectPlan_fresh by (by rewrite ?Hids).
      split; simpl.
      * apply NoDup_app. split_and!; [done| |apply NoDup_singleton].
        intros x Hx ->%list_elem_of_singleton. done.
      * by rewrite map_app, Hids.
  - split; simpl.
    + by apply NoDup_filter.
    + by rewrite removeFromProjectPlan_ids, Hids.
Qed.

Lemma handleAll_consistent events this localStorage :
  consistent this → consistent (handleAll events this localStorage).1.
Proof.
  unfold handleAll. revert this localStorage.
  induction events as [|e events IH]; intros this ls H; simpl; [done|].
  destruct (handleTaskSelection e this ls) as [this' ls'] eqn:E.
  apply IH. change this' with (this', ls').1. rewrite <- E.
  by apply handleTaskSelection_consistent.
Qed.

Lemma count_one_of_NoDup plan i :
  NoDup (map id plan) → i ∈ map id plan →
  length (filter (λ t, id t = i) plan) = 1%nat.
Proof.
  induction plan as [|t plan IH]; simpl; [by intros _ ?%elem_of_nil|].
  intros [Hnotin Hnd]%NoDup_cons Hin. rewrite filter_cons.
  destruct (decide (id t = i)) as [<-|Hne]; simpl.
  - f_equal. rewrite filter_none; [done|].
    apply Forall_forall. intros x Hx E. apply Hnotin. rewrite <- E.
    by apply list_elem_of_fmap_2.
  - apply IH; [done|]. apply elem_of_cons in Hin as [?|?]; [congruence|done].
Qed.

End Selection.

Lemma select_twice t this : select t (select t this) = select t this.
Proof.
  unfold select, handleTaskSelection. simpl. f_equal.
  - destruct (decide (id t ∈ selectedTasks this)) as [Hin|Hout].
    + by rewrite !(Set_add_present _ _ Hin).
    + rewrite (Set_add_fresh _ _ Hout). apply Set_add_present.
      apply elem_of_app. right. by apply list_elem_of_singleton.
  - destruct (decide (id t ∈ map id (projectPlan this))) as [Hin|Hout].
    + by rewrite !(addToProjectPlan_present _ _ Hin).
    + rewrite (addToProjectPlan_fresh _ _ Hout). apply addToProjectPlan_present.
      rewrite map_app. apply elem_of_app. right. by apply list_elem_of_singleton.
Qed.

(** C2: after any sequence of change events handled from the constructed
    (empty) state, the ids of the plan are exactly the selected ids, in the
    same order and without duplicates, so every selected id has exactly one
    plan entry; selecting a task twice is the same as selecting it once, and
    adding a record whose id is already in the plan leaves the plan as it
    is. *)
Theorem plan_matches_selection (events : list Checkbox)
    (localStorage : gmap string string) :
  let this := (handleAll events constructed localStorage).1 in
  NoDup (map id (projectPlan this))
  ∧ map id (projectPlan this) = selectedTasks this
  ∧ Forall (λ i, length (filter (λ t, id t = i) (projectPlan this)) = 1%nat)
      (selectedTasks this)
  ∧ (∀ t, select t (select t this) = select t this)
  ∧ Forall (λ t, ∀ ti de du di ca,
        addToProjectPlan {| id := id t; title := ti; description := de;
                            duration := du; difficulty := di; category := ca |}
          (projectPlan this) = projectPlan this)
      (projectPlan this).
Proof.
  intros this.
  destruct (handleAll_consistent events constructed localStorage
              consistent_constructed) as [Hnd Hids].
  fold this in Hnd, Hids. split_and!.
  - by rewrite Hids.
  - done.
  - apply Forall_forall. intros i Hi. apply count_one_of_NoDup; by rewrite Hids.
  - intros t. apply select_twice.
  - apply Forall_forall. intros t Ht ti de du di ca.
    apply addToProjectPlan_present. simpl. by apply list_elem_of_fmap_2.
Qed.

(** C7, as stated, fails: when the task is already selected, selecting it
    changes nothing and deselecting it removes it. *)
Lemma select_deselect_selected :
  ¬ (∀ t this, deselect t (select t this) = this).
Proof.
  intros H. specialize (H (sampleTask "a" "1 week" "design") oneSelected).
  vm_compute in H. discriminate H.
Qed.

(** C7, amended: for a task whose id is neither selected nor in the plan,
    selecting it and then deselecting that id restores both the selected
    ids and the plan. *)
Theorem select_deselect_fresh t t' this :
  id t' = id t →
  id t ∉ selectedTasks this →
  id t ∉ map id (projectPlan this) →
  deselect t' (select t this) = this.
Proof.
  intros Hid Hs Hp. unfold deselect, select, handleTaskSelection. simpl.
  rewrite Hid, (Set_add_fresh _ _ Hs), (addToProjectPlan_fresh _ _ Hp).
  unfold Set_delete, removeFromProjectPlan. rewrite !filter_app.
  rewrite (filter_absent (λ y, y ≠ id t) (selectedTasks this)).
  2:{ apply Forall_forall. by intros x Hx ->. }
  rewrite (filter_absent (λ task, id task ≠ id t) (projectPlan this)).
  2:{ apply Forall_forall. intros x Hx E. apply Hp. rewrite <- E.
      by apply list_elem_of_fmap_2. }
  rewrite !filter_cons, !decide_False, !filter_nil, !app_nil_r by (by intros ?).
  by destruct this.
Qed.

(** C7 at work: task b is selected and deselected while task a is
    selected. *)
Lemma select_deselect_fresh_witness :
  id (sampleTask "b" "2-4 days" "research") = id (sampleTask "b" "2-4 days" "research")
  ∧ (id (sampleTask "b" "2-4 days" "research") ∉ selectedTasks oneSelected)
  ∧ (id (sampleTask "b" "2-4 days" "research") ∉ map id (projectPlan oneSelected))
  ∧ deselect (sampleTask "b" "2-4 days" "research")
      (select (sampleTask "b" "2-4 days" "research") oneSelected)
    = oneSelected.
Proof.
  assert (H1 : id (sampleTask "b" "2-4 days" "research") ∉ selectedTasks oneSelected)
    by (apply (bool_decide_unpack _); vm_compute; exact I).
  assert (H2 : id (sampleTask "b" "2-4 days" "research")
               ∉ map id (projectPlan oneSelected))
    by (apply (bool_decide_unpack _); vm_compute; exact I).
  split_and!; [reflexivity | exact H1 | exact H2 |].
  exact (select_deselect_fresh _ _ oneSelected eq_refl H1 H2).
Defined.

(** ** The timeline *)

Lemma last_default_irrelevant {A} (x : A) l d d' :
  List.last (x :: l) d = List.last (x :: l) d'.
Proof.
  revert x. induction l as [|y l IH]; intros x; [done|].
  change (List.last (y :: l) d = List.last (y :: l) d'). apply IH.
Qed.

Lemma last_cons_last {A} (x : A) l d :
  List.last (x :: l) d = List.last l x.
Proof.
  destruct l as [|y l]; [done|].
  change (List.last (y :: l) d = List.last (y :: l) x).
  apply last_default_irrelevant.
Qed.

Lemma generateTimeline_from plan acc :
  fold_left scheduleTask plan acc =
    {| timeline := timeline acc ++ backToBack (totalDays acc) plan;
       totalDays :=
         List.last (map TimelineItem.endDay (backToBack (totalDays acc) plan))
           (totalDays acc) |}.
Proof.
  revert acc. induction plan as [|t plan IH]; intros acc.
  - simpl. rewrite app_nil_r. by destruct acc.
  - cbn [fold_left]. rewrite IH. cbn [scheduleTask timeline totalDays backToBack].
    rewrite <- app_assoc. f_equal.
    cbn [map TimelineItem.endDay]. by rewrite last_cons_last.
Qed.

Lemma backToBack_titles day plan :
  map TimelineItem.task (backToBack day plan) = map title plan.
Proof. revert day. induction plan; intros day; simpl; by f_equal. Qed.

Lemma backToBack_durations day plan :
  map TimelineItem.duration (backToBack day plan)
  = map (λ t, parseDuration (duration t)) plan.
Proof. revert day. induction plan; intros day; simpl; by f_equal. Qed.

Lemma backToBack_length day plan : length (backToBack day plan) = length plan.
Proof. revert day. induction plan; intros day; simpl; by f_equal. Qed.

Lemma backToBack_starts day plan :
  map TimelineItem.startDay (backToBack day plan)
  = map (λ e, e + 1)%Z
      (take (length plan) (day :: map TimelineItem.endDay (backToBack day plan))).
Proof.
  revert day. induction plan as [|t plan IH]; intros day; [done|].
  cbn [backToBack map length take TimelineItem.startDay TimelineItem.endDay].
  f_equal. apply IH.
Qed.

Lemma backToBack_ends day plan :
  Forall (λ e, TimelineItem.endDay e
               = (TimelineItem.startDay e + TimelineItem.duration e - 1)%Z)
    (backToBack day plan).
Proof.
  revert day. induction plan as [|t plan IH]; intros day; simpl; constructor.
  - simpl. lia.
  - apply IH.
Qed.

(** C3: the timeline has one entry per task, in plan order, carrying the
    task's title; the empty plan gives 0 days in total.  The numbers are
    those of the source where its additions are exact: for a plan whose
    durations are parsed exactly and add up to at most [MAX_SAFE_INTEGER],
    every entry carries the parsed duration of its task, the first entry
    starts on day 1 and each later one on the day after the end of the
    previous entry, an entry ends [duration - 1] days after its start, and
    [totalDays] is the end day of the last entry.  Durations 3, 1 and 4 give
    the day ranges 1-3, 4-4 and 5-8, and 8 days in total. *)
Theorem generateTimeline_sequential :
  (∀ this : ProjectPlanner,
     map TimelineItem.task (timeline (generateTimeline this))
     = map title (projectPlan this))
  ∧ (∀ selected : list string,
       generateTimeline {| selectedTasks := selected; projectPlan := [] |}
       = {| timeline := []; totalDays := 0 |})
  ∧ (∀ this : ProjectPlanner,
       exactSchedule (projectPlan this) = true →
       let schedule := generateTimeline this in
       let items := timeline schedule in
       map TimelineItem.duration items
       = map (λ t, parseDuration (duration t)) (projectPlan this)
       ∧ map TimelineItem.startDay items
         = map (λ e, e + 1)%Z
             (take (length items) (0 :: map TimelineItem.endDay items))
       ∧ Forall (λ e, TimelineItem.endDay e
                      = (TimelineItem.startDay e + TimelineItem.duration e - 1)%Z)
           items
       ∧ totalDays schedule = List.last (map TimelineItem.endDay items) 0)
  ∧ ∀ a b c : Task,
      let plan := [withDuration a "3 days"; withDuration b "1 day";
                   withDuration c "4 days"] in
      let example := generateTimeline {| selectedTasks := map id plan;
                                         projectPlan := plan |} in
      exactSchedule plan = true
      ∧ map (λ e, (TimelineItem.task e, TimelineItem.startDay e,
                   TimelineItem.endDay e)) (timeline example)
        = [(title a, 1, 3); (title b, 4, 4); (title c, 5, 8)]
      ∧ totalDays example = 8.
Proof.
  split_and!.
  - intros this. unfold generateTimeline.
    rewrite generateTimeline_from. cbn [timeline totalDays app].
    apply backToBack_titles.
  - done.
  - intros this _ schedule items. unfold items, schedule, generateTimeline.
    rewrite generateTimeline_from. cbn [timeline totalDays app]. split_and!.
    + apply backToBack_durations.
    + rewrite backToBack_length. apply backToBack_starts.
    + apply backToBack_ends.
    + done.
  - intros a b c. by vm_compute.
Qed.

(** C3 at work: a week and then two to four days give the day ranges 1-7 and
    8-10, and 10 days in total. *)
Lemma generateTimeline_sequential_witness :
  exactSchedule (projectPlan twoSelected) = true
  ∧ map TimelineItem.duration (timeline (generateTimeline twoSelected)) = [7; 3]
  ∧ map TimelineItem.startDay (timeline (generateTimeline twoSelected)) = [1; 8]
  ∧ totalDays (generateTimeline twoSelected) = 10.
Proof.
  assert (H : exactSchedule (projectPlan twoSelected) = true)
    by (vm_compute; reflexivity).
  split; [exact H|].
  destruct (proj1 (proj2 (proj2 generateTimeline_sequential)) twoSelected H)
    as (Hduration & Hstart & _ & Htotal).
  split_and!.
  - rewrite Hduration. vm_compute. reflexivity.
  - rewrite Hstart. vm_compute. reflexivity.
  - rewrite Htotal. vm_compute. reflexivity.
Defined.

(** ** JSON: reading back what was written *)

Section JSONFacts.

Lemma parseChars_escape a tail :
  parseChars (escape a ++ tail) = consChar a (parseChars tail).
Proof.
  destruct a as [[] [] [] [] [] [] [] []]; reflexivity.
Qed.

Lemma parseChars_written cs rest :
  parseChars (flat_map escape cs ++ "034"%char :: rest) = Parsed (cs, rest).
Proof.
  induction cs as [|a cs IH]; [done|].
  cbn [flat_map]. rewrite <- app_assoc, parseChars_escape, IH. done.
Qed.

Lemma parseString_written s rest :
  parseString (flat_map escape (list_ascii_of_string s) ++ "034"%char :: rest)
  = Parsed (s, rest).
Proof.
  unfold parseString. rewrite parseChars_written. simpl.
  by rewrite string_of_list_ascii_of_string.
Qed.

Lemma parseValue_string f s1 :
  parseValue (S f) ("034"%char :: s1)
  = bind (parseString s1) (λ '(k, r), Parsed (JString k, r)).
Proof. reflexivity. Qed.

Lemma parseValue_array f s1 :
  parseValue (S f) ("["%char :: s1)
  = match skipWs s1 with
    | b :: s2 =>
        if (nat_of_ascii b =? 93)%nat then Parsed (JArray [], s2)
        else bind (parseElements (length s1) (parseValue f) s1)
               (λ '(vs, r), Parsed (JArray vs, r))
    | [] => SyntaxError
    end.
Proof. reflexivity. Qed.

Lemma parseValue_object f s1 :
  parseValue (S f) ("{"%char :: s1)
  = match skipWs s1 with
    | b :: s2 =>
        if (nat_of_ascii b =? 125)%nat then Parsed (JObject [], s2)
        else bind (parseMembers (length s1) (parseValue f) s1)
               (λ '(ms, r), Parsed (JObject ms, r))
    | [] => SyntaxError
    end.
Proof. reflexivity. Qed.

(** A written value starts with a character that is neither white space
    nor a closing bracket. *)
Lemma write_head v :
  numberFree v = true →
  ∃ c tl, write v = c :: tl ∧ isWs c = false
          ∧ (nat_of_ascii c =? 93)%nat = false.
Proof.
  destruct v as [|[]|lit|s|vs|ms]; intros H; try discriminate H;
    eexists _, _; (split_and!; [reflexivity | reflexivity | reflexivity]).
Qed.

Lemma commaSep_cons x xs :
  ∃ more, commaSep (x :: xs) = x ++ more
          ∧ (xs = [] → more = [])
          ∧ (∀ y ys, xs = y :: ys → more = ","%char :: commaSep xs).
Proof.
  destruct xs as [|y ys].
  - exists []. simpl. rewrite app_nil_r. by split_and!.
  - eexists. split_and!; [reflexivity|done|]. by intros ? ? [= <- <-].
Qed.

Lemma commaSep_cons2 (x y : list ascii) l :
  commaSep (x :: y :: l) = x ++ ","%char :: commaSep (y :: l).
Proof. reflexivity. Qed.

Lemma commaSep_length_ge (items : list (list ascii)) x :
  x ∈ items → (length x ≤ length (commaSep items))%nat.
Proof.
  induction items as [|y items IH]; [by intros ?%elem_of_nil|].
  intros Hx. destruct items as [|z items].
  - apply list_elem_of_singleton in Hx as ->. done.
  - rewrite commaSep_cons2, length_app. cbn [length].
    apply elem_of_cons in Hx as [->|Hx]; [lia|].
    specialize (IH Hx). lia.
Qed.

Lemma commaSep_count (items : list (list ascii)) :
  Forall (λ x, x ≠ []) items → (length items ≤ S (length (commaSep items)))%nat.
Proof.
  induction 1 as [|x items Hx _ IH]; [simpl; lia|].
  destruct items as [|z items]; [simpl; lia|].
  rewrite commaSep_cons2, length_app. cbn [length] in *. lia.
Qed.

(** Decide the tests on literal characters in the goal. *)
Ltac decide_chars :=
  repeat (cbn [skipWs app];
    match goal with
    | |- context [isWs ?c] =>
        let b := eval vm_compute in (isWs c) in
        lazymatch b with
        | true => change (isWs c) with true
        | false => change (isWs c) with false
        end; cbv iota
    | |- context [(nat_of_ascii ?c =? ?n)%nat] =>
        let b := eval vm_compute in (nat_of_ascii c =? n)%nat in
        lazymatch b with
        | true => change (nat_of_ascii c =? n)%nat with true
        | false => change (nat_of_ascii c =? n)%nat with false
        end; cbv iota
    end).

Lemma parseElements_written pv v vs rest n :
  (length (v :: vs) ≤ n)%nat →
  Forall (λ v, ∀ r, pv (write v ++ r) = Parsed (v, r)) (v :: vs) →
  parseElements n pv (commaSep (map write (v :: vs)) ++ "]"%char :: rest)
  = Parsed (v :: vs, rest).
Proof.
  revert v n. induction vs as [|v' vs IH]; intros v n Hn Hpv.
  - destruct n as [|n]; [simpl in Hn; lia|].
    apply Forall_cons_1 in Hpv as [Hv _].
    cbn [map commaSep parseElements]. rewrite Hv. reflexivity.
  - destruct n as [|n]; [simpl in Hn; lia|].
    apply Forall_cons_1 in Hpv as [Hv Hpv].
    cbn [map]. rewrite commaSep_cons2, <- app_assoc.
    cbn [parseElements]. rewrite Hv.
    unfold bind at 1. cbn [app skipWs].
    change (isWs ","%char) with false. cbv iota.
    change (nat_of_ascii ","%char =? 44)%nat with true. cbv iota.
    change (write v' :: map write vs) with (map write (v' :: vs)).
    rewrite IH; [done| simpl in *; lia | done].
Qed.

Lemma parseMembers_written pv k v ms rest n :
  (length ((k, v) :: ms) ≤ n)%nat →
  Forall (λ m, ∀ r, pv (write m.2 ++ r) = Parsed (m.2, r)) ((k, v) :: ms) →
  parseMembers n pv
    (commaSep (map (λ m, quote m.1 ++ ":"%char :: write m.2) ((k, v) :: ms))
       ++ "}"%char :: rest)
  = Parsed ((k, v) :: ms, rest).
Proof.
  revert k v n. induction ms as [|[k' v'] ms IH]; intros k v n Hn Hpv.
  - destruct n as [|n]; [simpl in Hn; lia|].
    apply Forall_cons_1 in Hpv as [Hv _]. simpl in Hv.
    cbn [map commaSep fst snd]. unfold quote.
    cbn [app]. rewrite <- !app_assoc. cbn [app parseMembers]. decide_chars.
    rewrite parseString_written. unfold bind at 1. decide_chars.
    rewrite Hv. unfold bind. by decide_chars.
  - destruct n as [|n]; [simpl in Hn; lia|].
    apply Forall_cons_1 in Hpv as [Hv Hpv]. simpl in Hv.
    cbn [map]. rewrite commaSep_cons2. cbn [fst snd]. unfold quote at 1.
    cbn [app]. rewrite <- !app_assoc. cbn [app parseMembers]. decide_chars.
    rewrite parseString_written. unfold bind at 1. decide_chars.
    rewrite Hv. unfold bind at 1. decide_chars.
    pose proof (IH k' v' n ltac:(simpl in *; lia) Hpv) as E.
    cbn [map fst snd] in E. by rewrite E.
Qed.

Lemma written_length_pos v : numberFree v = true → (1 ≤ length (write v))%nat.
Proof.
  intros (c & tl & -> & _)%write_head. simpl. lia.
Qed.

(** [parseValue] reads back a written value and stops right after it. *)
Lemma parseValue_written v :
  numberFree v = true →
  ∀ fuel rest, (length (write v) ≤ fuel)%nat →
    parseValue fuel (write v ++ rest) = Parsed (v, rest).
Proof.
  induction v as [|b|lit|s|vs IH|ms IH] using json_nested_ind;
    intros Hnf fuel rest Hfuel.
  - destruct fuel; [simpl in Hfuel; lia | reflexivity].
  - destruct fuel; [destruct b; simpl in Hfuel; lia | by destruct b].
  - discriminate Hnf.
  - destruct fuel; [simpl in Hfuel; lia|].
    cbn [write]. unfold quote. cbn [app]. rewrite <- app_assoc. cbn [app].
    rewrite parseValue_string, parseString_written. reflexivity.
  - destruct fuel as [|fuel]; [simpl in Hfuel; lia|].
    cbn [write app]. rewrite <- app_assoc. cbn [app].
    rewrite parseValue_array.
    destruct vs as [|v vs]; [reflexivity|].
    cbn [numberFree] in Hnf. apply forallb_true_Forall in Hnf.
    assert (∃ c tl, commaSep (map write (v :: vs)) ++ "]"%char :: rest = c :: tl
                    ∧ isWs c = false ∧ (nat_of_ascii c =? 93)%nat = false)
      as (c & tl & HX & Hws & H93).
    { destruct (commaSep_cons (write v) (map write vs)) as (more & E & _).
      apply Forall_cons_1 in Hnf as [Hv _].
      apply write_head in Hv as (c & tl & Hc & ? & ?).
      cbn [map]. rewrite E, Hc. by eexists c, _. }
    rewrite HX at 1. cbn [skipWs]. rewrite Hws, H93.
    rewrite parseElements_written; [done| |].
    + rewrite length_app. cbn [length].
      pose proof (commaSep_count (map write (v :: vs))) as Hc.
      rewrite length_map in Hc. cbn [length] in *.
      assert (Forall (λ x, x ≠ []) (map write (v :: vs))) as Hne.
      { apply Forall_fmap. eapply Forall_impl; [exact Hnf|].
        intros x Hx%written_length_pos. simpl.
        destruct (write x); [simpl in Hx; lia | done]. }
      specialize (Hc Hne). lia.
    + apply Forall_forall. intros x Hx r.
      rewrite Forall_forall in IH, Hnf.
      apply IH; [done | by apply Hnf |].
      pose proof (commaSep_length_ge (map write (v :: vs)) (write x)
                    (list_elem_of_fmap_2 _ _ _ Hx)) as Hl.
      cbn [write length] in Hfuel.
      rewrite length_app in Hfuel. cbn [length] in Hfuel. lia.
  - destruct fuel as [|fuel]; [simpl in Hfuel; lia|].
    cbn [write app]. rewrite <- app_assoc. cbn [app].
    rewrite parseValue_object.
    destruct ms as [|[k v] ms]; [reflexivity|].
    cbn [numberFree] in Hnf. apply forallb_true_Forall in Hnf.
    set (item := λ m : string * json, quote m.1 ++ ":"%char :: write m.2) in *.
    assert (∃ tl, commaSep (map item ((k, v) :: ms)) ++ "}"%char :: rest
                  = "034"%char :: tl) as (tl & HX).
    { destruct (commaSep_cons (item (k, v)) (map item ms)) as (more & E & _).
      cbn [map]. rewrite E. unfold item at 1, quote. by eexists. }
    rewrite HX at 1. decide_chars.
    unfold item. rewrite parseMembers_written; [done| |].
    + rewrite length_app. cbn [length].
      pose proof (commaSep_count (map item ((k, v) :: ms))) as Hc.
      rewrite length_map in Hc. cbn [length] in *.
      assert (Forall (λ x, x ≠ []) (map item ((k, v) :: ms))) as Hne.
      { apply Forall_fmap, Forall_forall. by intros x _. }
      specialize (Hc Hne). fold item. lia.
    + apply Forall_forall. intros x Hx r.
      rewrite Forall_forall in IH, Hnf.
      apply IH; [done | by apply Hnf |].
      pose proof (commaSep_length_ge (map item ((k, v) :: ms)) (item x)
                    (list_elem_of_fmap_2 _ _ _ Hx)) as Hl.
      cbn [write length] in Hfuel.
      rewrite length_app in Hfuel. fold item in Hfuel.
      unfold item at 1 in Hl. rewrite length_app in Hl.
      cbn [length] in Hfuel, Hl. lia.
Qed.

(** [JSON.parse(JSON.stringify(v))] is [v]. *)
Lemma parse_stringify v : numberFree v = true → parse (stringify v) = Parsed v.
Proof.
  intros Hnf. unfold parse, stringify.
  rewrite list_ascii_of_string_of_list_ascii.
  rewrite <- (app_nil_r (write v)) at 2.
  rewrite parseValue_written by (done || lia). reflexivity.
Qed.

End JSONFacts.

(** ** Persistence *)

Example parse_general :
  JSON.parse " [ 1 , -2.5e3 , true , null , [ ] , { } ] "
  = Parsed (JArray [JNumber (list_ascii_of_string "1");
                    JNumber (list_ascii_of_string "-2.5e3");
                    JBool true; JNull; JArray []; JObject []]).
Proof. by vm_compute. Qed.

Example parse_rejects :
  JSON.parse "[1,]" = SyntaxError ∧ JSON.parse "01" = SyntaxError
  ∧ JSON.parse "[{" = SyntaxError ∧ JSON.parse "nul" = SyntaxError
  ∧ JSON.parse "1." = SyntaxError ∧ JSON.parse "" = SyntaxError.
Proof. by vm_compute. Qed.

Lemma taskOfJson_taskToJson t : taskOfJson (taskToJson t) = Some t.
Proof. by destruct t. Qed.

Lemma planOfJson_planToJson plan : planOfJson (planToJson plan) = Some plan.
Proof.
  unfold planOfJson, planToJson. induction plan as [|t plan IH]; [done|].
  cbn [map mapM]. rewrite taskOfJson_taskToJson. simpl. by rewrite IH.
Qed.

Lemma stringOfJson_ids ids : mapM stringOfJson (map JString ids) = Some ids.
Proof.
  induction ids as [|i ids IH]; [done|]. cbn [map mapM]. simpl. by rewrite IH.
Qed.

Lemma numberFree_planToJson plan : numberFree (planToJson plan) = true.
Proof.
  unfold planToJson. cbn [numberFree]. apply Forall_forallb_true.
  apply Forall_fmap, Forall_forall. by intros t _.
Qed.

Lemma numberFree_idsToJson ids : numberFree (idsToJson ids) = true.
Proof.
  unfold idsToJson. cbn [numberFree]. apply Forall_forallb_true.
  apply Forall_fmap, Forall_forall. by intros t _.
Qed.

Lemma truthy_saved_plan plan : truthy (Some (stringify (planToJson plan))) = true.
Proof. reflexivity. Qed.

Lemma truthy_saved_ids ids : truthy (Some (stringify (idsToJson ids))) = true.
Proof. reflexivity. Qed.

Lemma getItem_savePlan_plan this localStorage :
  getItem "uxProjectPlan" (savePlan this localStorage)
  = Some (stringify (planToJson (projectPlan this))).
Proof.
  unfold getItem, savePlan, setItem.
  rewrite lookup_insert_ne by done. apply lookup_insert_eq.
Qed.

Lemma getItem_savePlan_ids this localStorage :
  getItem "uxSelectedTasks" (savePlan this localStorage)
  = Some (stringify (idsToJson (selectedTasks this))).
Proof. unfold getItem, savePlan, setItem. apply lookup_insert_eq. Qed.

(** Restoring ids never leaves the typed model and never touches the plan. *)
Lemma restoreIds_plan document taskIds this :
  ∃ this', (restoreIds document taskIds this = Normal this'
            ∨ restoreIds document taskIds this = Throw this')
           ∧ projectPlan this' = projectPlan this.
Proof.
  revert this. induction taskIds as [|i taskIds IH]; intros this; simpl.
  - exists this. auto.
  - destruct (invalidSelector document i).
    + eexists. split; [by right | done].
    + destruct (IH {| selectedTasks := Set_add i (selectedTasks this);
                      projectPlan := projectPlan this |}) as (this' & H & Hp).
      exists this'. by split.
Qed.

(** C9: after [savePlan], [loadSavedPlan] (into any instance, on any page)
    completes and its plan is the saved plan: the same records, with the
    same fields, in the same order. *)
Theorem savePlan_loadSavedPlan_plan (document : Document) (this this0 : ProjectPlanner)
    (localStorage : gmap string string) :
  ∃ this' console,
    loadSavedPlan document (savePlan this localStorage) this0 = Loaded this' console
    ∧ projectPlan this' = projectPlan this.
Proof.
  unfold loadSavedPlan.
  rewrite getItem_savePlan_plan, getItem_savePlan_ids.
  unfold restorePlan. rewrite truthy_saved_plan.
  rewrite parse_stringify by apply numberFree_planToJson.
  rewrite planOfJson_planToJson. cbn [andThen].
  unfold restoreSelected. rewrite truthy_saved_ids.
  rewrite parse_stringify by apply numberFree_idsToJson.
  unfold idsToJson. rewrite stringOfJson_ids.
  destruct (restoreIds_plan document (selectedTasks this)
              {| selectedTasks := selectedTasks this0;
                 projectPlan := projectPlan this |}) as (this' & [-> | ->] & Hp);
    eexists _, _; split; done.
Qed.

Lemma restorePlan_absent x this : absent x → restorePlan x this = Normal this.
Proof.
  unfold absent, restorePlan. destruct x as [text|]; [|done]. by intros ->.
Qed.

Lemma restorePlan_failsToParse x this :
  failsToParse x → restorePlan x this = Throw this.
Proof.
  intros (text & -> & Ht & Hp). unfold restorePlan. by rewrite Ht, Hp.
Qed.

Lemma restorePlan_restorable x plan this :
  restorable x plan →
  restorePlan x this
  = Normal {| selectedTasks := selectedTasks this; projectPlan := plan |}.
Proof.
  intros (text & v & -> & Ht & Hp & Hv). unfold restorePlan.
  by rewrite Ht, Hp, Hv.
Qed.

Lemma restoreSelected_absent document x this :
  absent x → restoreSelected document x this = Normal this.
Proof.
  unfold absent, restoreSelected. destruct x as [text|]; [|done]. by intros ->.
Qed.

Lemma restoreSelected_failsToParse document x this :
  failsToParse x → restoreSelected document x this = Throw this.
Proof.
  intros (text & -> & Ht & Hp). unfold restoreSelected. by rewrite Ht, Hp.
Qed.

(** C8, as stated, fails: with a valid serialized plan and no serialized id
    set, the load ends with the plan restored, not in the empty state. *)
Lemma loadSavedPlan_keeps_valid_plan :
  ¬ (∀ (document : Document) (localStorage : gmap string string),
       unusable (getItem "uxProjectPlan" localStorage)
       ∨ unusable (getItem "uxSelectedTasks" localStorage) →
       ∃ console,
         loadSavedPlan document localStorage constructed = Loaded constructed console).
Proof.
  intros H. destruct (H quotePage planOnlyStorage) as [console Hload].
  - right. left. reflexivity.
  - vm_compute in Hload. discriminate Hload.
Qed.

Lemma restoreSelected_restorableIds document x taskIds this :
  restorableIds x taskIds →
  restoreSelected document x this = restoreIds document taskIds this.
Proof.
  intros (text & vs & -> & Ht & Hp & Hv). unfold restoreSelected.
  by rewrite Ht, Hp, Hv.
Qed.

(** C8, amended: the two persisted values are restored independently, the
    plan first, and the load never fails; an absent value is skipped
    silently and a value that fails to parse is logged.  A plan value that
    fails to parse ends the load in the empty state with the error logged,
    whatever the id value is.  With the plan value absent, the load ends in
    the empty state: nothing is logged when the id value is absent too, the
    error is logged when the id value fails to parse.  With a plan value
    that can be restored, the plan is restored even when the id value is
    unusable, and the selected ids stay empty: nothing is logged when the
    id value is absent, the error is logged when it fails to parse.  With
    the plan value absent and an id value that can be read, the plan stays
    empty. *)
Theorem loadSavedPlan_fallback (document : Document)
    (localStorage : gmap string string) :
  let savedPlan := getItem "uxProjectPlan" localStorage in
  let savedTasks := getItem "uxSelectedTasks" localStorage in
  let result := loadSavedPlan document localStorage constructed in
  (failsToParse savedPlan → result = Loaded constructed loadError)
  ∧ (absent savedPlan → absent savedTasks → result = Loaded constructed [])
  ∧ (absent savedPlan → failsToParse savedTasks →
     result = Loaded constructed loadError)
  ∧ (∀ plan, restorable savedPlan plan → absent savedTasks →
     result = Loaded {| selectedTasks := []; projectPlan := plan |} [])
  ∧ (∀ plan, restorable savedPlan plan → failsToParse savedTasks →
     result = Loaded {| selectedTasks := []; projectPlan := plan |} loadError)
  ∧ (∀ taskIds, absent savedPlan → restorableIds savedTasks taskIds →
     ∃ this console,
       result = Loaded this console
       ∧ projectPlan this = []
       ∧ (console = [] ∨ console = loadError)).
Proof.
  intros savedPlan savedTasks result. unfold result, loadSavedPlan.
  fold savedPlan savedTasks. split_and!.
  - intros Hp. by rewrite restorePlan_failsToParse.
  - intros Hp Hs. rewrite restorePlan_absent by done. cbn [andThen].
    by rewrite restoreSelected_absent.
  - intros Hp Hs. rewrite restorePlan_absent by done. cbn [andThen].
    by rewrite restoreSelected_failsToParse.
  - intros plan Hp Hs. rewrite (restorePlan_restorable _ plan) by done.
    cbn [andThen]. by rewrite restoreSelected_absent.
  - intros plan Hp Hs. rewrite (restorePlan_restorable _ plan) by done.
    cbn [andThen]. by rewrite restoreSelected_failsToParse.
  - intros taskIds Hp Hs. rewrite restorePlan_absent by done. cbn [andThen].
    rewrite (restoreSelected_restorableIds _ _ taskIds) by done.
    destruct (restoreIds_plan document taskIds constructed)
      as (this' & [-> | ->] & Hplan); eexists _, _; split_and!; eauto.
Qed.

(** C8 at work: an unparsable plan; an empty storage; no plan and unparsable
    ids; a valid plan without ids; a valid plan with unparsable ids; no plan
    and the ids a and b. *)
Lemma loadSavedPlan_fallback_witness :
  (failsToParse (getItem "uxProjectPlan" brokenStorage)
   ∧ loadSavedPlan quotePage brokenStorage constructed
     = Loaded constructed loadError)
  ∧ (absent (getItem "uxProjectPlan" ∅) ∧ absent (getItem "uxSelectedTasks" ∅)
     ∧ loadSavedPlan quotePage ∅ constructed = Loaded constructed [])
  ∧ (absent (getItem "uxProjectPlan" brokenIdsStorage)
     ∧ failsToParse (getItem "uxSelectedTasks" brokenIdsStorage)
     ∧ loadSavedPlan quotePage brokenIdsStorage constructed
       = Loaded constructed loadError)
  ∧ (restorable (getItem "uxProjectPlan" planOnlyStorage)
       [sampleTask "a" "1 day" "general"]
     ∧ absent (getItem "uxSelectedTasks" planOnlyStorage)
     ∧ loadSavedPlan quotePage planOnlyStorage constructed
       = Loaded {| selectedTasks := [];
                   projectPlan := [sampleTask "a" "1 day" "general"] |} [])
  ∧ (restorable (getItem "uxProjectPlan" planBrokenIdsStorage)
       [sampleTask "a" "1 day" "general"]
     ∧ failsToParse (getItem "uxSelectedTasks" planBrokenIdsStorage)
     ∧ loadSavedPlan quotePage planBrokenIdsStorage constructed
       = Loaded {| selectedTasks := [];
                   projectPlan := [sampleTask "a" "1 day" "general"] |}
           loadError)
  ∧ (absent (getItem "uxProjectPlan" idsOnlyStorage)
     ∧ restorableIds (getItem "uxSelectedTasks" idsOnlyStorage) ["a"; "b"]
     ∧ ∃ this console,
         loadSavedPlan quotePage idsOnlyStorage constructed = Loaded this console
         ∧ projectPlan this = []
         ∧ (console = [] ∨ console = loadError)).
Proof.
  assert (H1 : failsToParse (getItem "uxProjectPlan" brokenStorage)).
  { exists "[{". split_and!; vm_compute; reflexivity. }
  assert (H2 : absent (getItem "uxProjectPlan" ∅)) by reflexivity.
  assert (H3 : absent (getItem "uxSelectedTasks" ∅)) by reflexivity.
  assert (H4 : absent (getItem "uxProjectPlan" brokenIdsStorage))
    by (vm_compute; reflexivity).
  assert (H5 : failsToParse (getItem "uxSelectedTasks" brokenIdsStorage)).
  { exists "[{". split_and!; vm_compute; reflexivity. }
  assert (H6 : restorable (getItem "uxProjectPlan" planOnlyStorage)
                 [sampleTask "a" "1 day" "general"]).
  { eexists _, _. split_and!; vm_compute; reflexivity. }
  assert (H7 : absent (getItem "uxSelectedTasks" planOnlyStorage))
    by (vm_compute; reflexivity).
  assert (H8 : restorable (getItem "uxProjectPlan" planBrokenIdsStorage)
                 [sampleTask "a" "1 day" "general"]).
  { eexists _, _. split_and!; vm_compute; reflexivity. }
  assert (H9 : failsToParse (getItem "uxSelectedTasks" planBrokenIdsStorage)).
  { exists "[{". split_and!; vm_compute; reflexivity. }
  assert (H10 : absent (getItem "uxProjectPlan" idsOnlyStorage))
    by (vm_compute; reflexivity).
  assert (H11 : restorableIds (getItem "uxSelectedTasks" idsOnlyStorage)
                  ["a"; "b"]).
  { eexists _, _. split_and!; vm_compute; reflexivity. }
  split_and!; try assumption.
  - exact (proj1 (loadSavedPlan_fallback quotePage brokenStorage) H1).
  - exact (proj1 (proj2 (loadSavedPlan_fallback quotePage ∅)) H2 H3).
  - exact (proj1 (proj2 (proj2
             (loadSavedPlan_fallback quotePage brokenIdsStorage))) H4 H5).
  - exact (proj1 (proj2 (proj2 (proj2
             (loadSavedPlan_fallback quotePage planOnlyStorage))))
             [sampleTask "a" "1 day" "general"] H6 H7).
  - exact (proj1 (proj2 (proj2 (proj2 (proj2
             (loadSavedPlan_fallback quotePage planBrokenIdsStorage)))))
             [sampleTask "a" "1 day" "general"] H8 H9).
  - exact (proj2 (proj2 (proj2 (proj2 (proj2
             (loadSavedPlan_fallback quotePage idsOnlyStorage)))))
             ["a"; "b"] H10 H11).
Defined.

(** ** Grouping by category *)

Section Grouping.

Lemma getOwn_buckets {V} (f : string → V) (order : list string) k :
  getOwn (map (λ c, (c, f c)) order) k
  = if bool_decide (k ∈ order) then Some (f k) else None.
Proof.
  induction order as [|c order IH]; [done|]. cbn [map getOwn].
  destruct (decide (c = k)) as [->|Hne].
  - rewrite !bool_decide_eq_true_2; [done | apply list_elem_of_here | done].
  - rewrite (bool_decide_eq_false_2 (c = k)) by done. rewrite IH.
    destruct (decide (k ∈ order)) as [Hk|Hk].
    + rewrite !bool_decide_eq_true_2; [done | by apply list_elem_of_further | done].
    + rewrite !bool_decide_eq_false_2; [done | | done].
      intros [->|?]%elem_of_cons; done.
Qed.

Lemma set_new {V} (o : object V) k v :
  k ∉ o.*1 → set o k v = o ++ [(k, v)].
Proof.
  induction o as [|[k' v'] o IH]; [done|]. cbn [fmap list_fmap fst set].
  intros Hk. apply not_elem_of_cons in Hk as [Hne Hk].
  rewrite bool_decide_eq_false_2 by done. by rewrite IH.
Qed.

Lemma set_buckets {V} (f g : string → V) (order : list string) k :
  NoDup order → k ∈ order → (∀ c, c ≠ k → g c = f c) →
  set (map (λ c, (c, f c)) order) k (g k) = map (λ c, (c, g c)) order.
Proof.
  intros Hnd Hk Hg. induction Hnd as [|c order Hc Hnd IH]; [by apply elem_of_nil in Hk|].
  cbn [map set]. destruct (decide (c = k)) as [->|Hne].
  - rewrite bool_decide_eq_true_2 by done.
    f_equal. apply map_ext_in. intros c Hin%list_elem_of_In.
    f_equal. symmetry. apply Hg. by intros ->.
  - rewrite bool_decide_eq_false_2 by done.
    rewrite (Hg c Hne). f_equal. apply IH.
    apply elem_of_cons in Hk as [?|?]; [congruence | done].
Qed.

Lemma firstSeen_snoc cs c :
  firstSeen (cs ++ [c])
  = if bool_decide (c ∈ firstSeen cs) then firstSeen cs else firstSeen cs ++ [c].
Proof. unfold firstSeen. by rewrite fold_left_app. Qed.

Lemma firstSeen_spec cs :
  NoDup (firstSeen cs) ∧ ∀ c, c ∈ firstSeen cs ↔ c ∈ cs.
Proof.
  induction cs as [|c cs [IHnd IHin]] using rev_ind.
  - split; [constructor | done].
  - rewrite firstSeen_snoc. case_bool_decide as Hc; split.
    + done.
    + intros c'. rewrite elem_of_app, list_elem_of_singleton, <- IHin.
      split; [auto | intros [?| ->]; done].
    + apply NoDup_app. split_and!; [done | | apply NoDup_singleton].
      by intros c' Hc' ->%list_elem_of_singleton.
    + intros c'. by rewrite !elem_of_app, IHin.
Qed.

Lemma bucket_snoc plan t c :
  bucket (plan ++ [t]) c
  = bucket plan c ++ (if bool_decide (category t = c) then [t] else []).
Proof.
  unfold bucket. rewrite filter_app, filter_cons, filter_nil.
  by case_bool_decide; [rewrite decide_True | rewrite decide_False].
Qed.

Lemma bucket_unseen plan c : c ∉ map category plan → bucket plan c = [].
Proof.
  intros Hc. unfold bucket. apply filter_none, Forall_forall.
  intros t Ht E. apply Hc. rewrite <- E. by apply list_elem_of_fmap_2.
Qed.

Lemma groupTask_grouped plan t :
  category t ∉ prototypeKeys →
  groupTask (grouped plan) t = Normal (grouped (plan ++ [t])).
Proof.
  intros Hproto. unfold groupTask, get, grouped, buckets.
  destruct (firstSeen_spec (map category plan)) as [Hnd Hin].
  rewrite map_app. cbn [map]. rewrite firstSeen_snoc.
  rewrite (getOwn_buckets (bucket plan)).
  case_bool_decide as Hseen.
  - f_equal.
    rewrite <- (set_buckets (bucket plan) (bucket (plan ++ [t])) _
                  (category t) Hnd Hseen).
    + f_equal. rewrite bucket_snoc. by rewrite bool_decide_eq_true_2.
    + intros c Hc. rewrite bucket_snoc, bool_decide_eq_false_2 by done.
      by rewrite app_nil_r.
  - rewrite bool_decide_eq_false_2 by done. f_equal.
    rewrite set_new.
    2:{ rewrite <- list_fmap_compose. simpl. by rewrite list_fmap_id. }
    rewrite map_app. cbn [map]. f_equal.
    + apply map_ext_in. intros c Hc%list_elem_of_In. f_equal.
      rewrite bucket_snoc, bool_decide_eq_false_2, app_nil_r; [done|].
      intros E. by subst c.
    + f_equal. f_equal. rewrite bucket_snoc, bool_decide_eq_true_2 by done.
      rewrite bucket_unseen; [done|]. by rewrite <- Hin.
Qed.

Lemma groupTasks_grouped rest plan :
  Forall (λ t, category t ∉ prototypeKeys) rest →
  groupTasks rest (grouped plan) = Normal (grouped (plan ++ rest)).
Proof.
  intros H. revert plan. induction H as [|t rest Ht _ IH]; intros plan.
  - by rewrite app_nil_r.
  - cbn [groupTasks]. rewrite groupTask_grouped by done. cbn [andThen].
    rewrite IH. by rewrite <- app_assoc.
Qed.

Lemma insertBy_map {A B} (key : B → Z) (g : A → B) x l :
  insertBy key (g x) (map g l) = map g (insertBy (λ a, key (g a)) x l).
Proof.
  induction l as [|y l IH]; [done|]. cbn [map insertBy].
  destruct (key (g x) <=? key (g y))%Z; [done|]. cbn [map]. by rewrite IH.
Qed.

Lemma sortBy_map {A B} (key : B → Z) (g : A → B) l :
  sortBy key (map g l) = map g (sortBy (λ a, key (g a)) l).
Proof.
  unfold sortBy. induction l as [|x l IH]; [done|].
  cbn [map foldr]. by rewrite IH, insertBy_map.
Qed.

Lemma filter_map_comm {A B} (P : B → Prop) `{∀ x, Decision (P x)}
    (g : A → B) (l : list A) :
  filter P (map g l) = map g (filter (λ a, P (g a)) l).
Proof.
  induction l as [|x l IH]; [done|]. cbn [map]. rewrite !filter_cons.
  destruct (decide (P (g x))); cbn [map]; by rewrite IH.
Qed.

Lemma ownKeyOrder_map {A B} (name : B → string) (g : A → B) l :
  ownKeyOrder name (map g l) = map g (ownKeyOrder (λ a, name (g a)) l).
Proof.
  unfold ownKeyOrder. by rewrite !filter_map_comm, sortBy_map, map_app.
Qed.

Lemma entries_buckets plan order :
  entries (buckets plan order) = buckets plan (ownKeyOrder (λ c, c) order).
Proof. unfold entries, buckets. by rewrite ownKeyOrder_map. Qed.

Lemma ownKeyOrder_no_index {A} (name : A → string) l :
  Forall (λ x, isArrayIndex (name x) = false) l → ownKeyOrder name l = l.
Proof.
  intros H. unfold ownKeyOrder.
  rewrite filter_none, filter_absent; [done| |].
  - eapply Forall_impl; [exact H|]. simpl. intros x ->. done.
  - eapply Forall_impl; [exact H|]. simpl. intros x ->. done.
Qed.

Lemma groupTasksByCategory_grouped this :
  Forall (λ t, category t ∉ prototypeKeys) (projectPlan this) →
  groupTasksByCategory this = Normal (grouped (projectPlan this)).
Proof. intros H. exact (groupTasks_grouped (projectPlan this) [] H). Qed.

End Grouping.

Lemma keys_buckets plan order : (buckets plan order).*1 = order.
Proof.
  unfold buckets. rewrite <- list_fmap_compose. simpl. apply list_fmap_id.
Qed.

Example groupTasksByCategory_index_order :
  (λ o, keys o) <$> (match groupTasksByCategory indexCategories with
                     | Normal o => Some o
                     | _ => None
                     end)
  = Some ["2"; "10"; "b"].
Proof. by vm_compute. Qed.

(** C4, as stated, fails: a category that is an array index is listed before
    the others, in ascending numeric order, wherever it first occurs. *)
Lemma groupTasksByCategory_index_first :
  ¬ (∀ this, ∃ categories,
       groupTasksByCategory this = Normal categories
       ∧ keys categories = firstSeen (map category (projectPlan this))).
Proof.
  intros H. destruct (H indexCategories) as (categories & Hg & Hk).
  vm_compute in Hg. injection Hg as <-. vm_compute in Hk. discriminate Hk.
Qed.

(** C4, amended: for a plan none of whose categories is a property name
    inherited from [Object.prototype], grouping succeeds and yields one
    bucket per category holding the tasks of that category in plan order;
    the buckets are listed in the property order of the object: categories
    that are array indices first, in ascending numeric order, then the other
    categories in first-occurrence order.  When no category is an array
    index the bucket order is the first-occurrence order. *)
Theorem groupTasksByCategory_order (this : ProjectPlanner) :
  Forall (λ t, category t ∉ prototypeKeys) (projectPlan this) →
  ∃ categories,
    groupTasksByCategory this = Normal categories
    ∧ entries categories
      = buckets (projectPlan this)
          (ownKeyOrder (λ c, c) (firstSeen (map category (projectPlan this))))
    ∧ (Forall (λ t, isArrayIndex (category t) = false) (projectPlan this) →
       keys categories = firstSeen (map category (projectPlan this))).
Proof.
  intros Hproto. exists (grouped (projectPlan this)).
  unfold groupTasksByCategory.
  pose proof (groupTasks_grouped (projectPlan this) [] Hproto) as Hg.
  split_and!.
  - exact Hg.
  - apply entries_buckets.
  - intros Hidx. unfold keys, grouped. rewrite entries_buckets, keys_buckets.
    apply ownKeyOrder_no_index, Forall_forall.
    intros c Hc.
    apply (proj1 (proj2 (firstSeen_spec _) c)) in Hc.
    apply list_elem_of_fmap in Hc as (t & -> & Ht).
    rewrite Forall_forall in Hidx. by apply Hidx.
Qed.

(** C4 at work: categories x, y, x, z give the buckets x, y, z, with both
    tasks of x in plan order. *)
Lemma groupTasksByCategory_order_witness :
  Forall (λ t, category t ∉ prototypeKeys) (projectPlan repeatedCategories)
  ∧ ∃ categories,
      groupTasksByCategory repeatedCategories = Normal categories
      ∧ map (λ p, (p.1, map id p.2)) (entries categories)
        = [("x", ["1"; "3"]); ("y", ["2"]); ("z", ["4"])].
Proof.
  assert (Hproto : Forall (λ t, category t ∉ prototypeKeys)
                     (projectPlan repeatedCategories)).
  { repeat constructor; apply (bool_decide_unpack _); vm_compute; exact I. }
  split; [exact Hproto|].
  destruct (groupTasksByCategory_order repeatedCategories Hproto)
    as (categories & Hg & He & _).
  exists categories. split; [exact Hg|]. rewrite He. vm_compute. reflexivity.
Defined.

(** ** Plan generation *)

(** With nothing selected the request ends in the alert, without a
    document. *)
Lemma generateProjectPlan_rejects_empty today this :
  selectedTasks this = [] →
  generateProjectPlan today this
  = Alert "Please select at least one task to create a project plan.".
Proof. intros H. unfold generateProjectPlan. by rewrite H. Qed.

(** With something selected and no inherited property name among the
    categories, the request ends in a document. *)
Lemma generateProjectPlan_builds today this :
  selectedTasks this ≠ [] →
  Forall (λ t, category t ∉ prototypeKeys) (projectPlan this) →
  ∃ planDocument,
    generateProjectPlan today this = PlanModal planDocument
    ∧ taskCount planDocument = length (projectPlan this)
    ∧ doc_totalDays planDocument = totalDays (generateTimeline this).
Proof.
  intros Hsel Hproto. unfold generateProjectPlan.
  rewrite bool_decide_eq_false_2.
  2:{ unfold Set_size. by destruct (selectedTasks this). }
  rewrite (groupTasksByCategory_grouped this Hproto).
  by eexists.
Qed.

(** C5: the code fails on a non-empty plan.  With one selected task whose
    category is [constructor], [categories[task.category]] is the inherited
    [Object] function, which has no [push]: the request ends in a
    [TypeError] instead of a document. *)
Theorem generateProjectPlan_inherited_category (today : Z) :
  generateProjectPlan today inheritedCategory = TypeError.
Proof. reflexivity. Qed.

(** ** Category labels *)

Lemma replace_no_hyphen s :
  "-"%char ∉ s → replace ["-"%char] [" "%char] s = s.
Proof.
  induction s as [|a s IH]; [done|]. intros [Ha Hs]%not_elem_of_cons.
  cbn [replace stripPrefix]. rewrite bool_decide_eq_false_2 by done.
  by rewrite IH.
Qed.

Lemma replace_first_hyphen pre post :
  "-"%char ∉ pre →
  replace ["-"%char] [" "%char] (pre ++ "-"%char :: post)
  = pre ++ " "%char :: post.
Proof.
  induction pre as [|a pre IH]; [done|]. intros [Ha Hs]%not_elem_of_cons.
  cbn [app replace stripPrefix]. rewrite bool_decide_eq_false_2 by done.
  by rewrite IH.
Qed.

Example formatCategoryName_two_words :
  formatCategoryName "user-research" = "User research".
Proof. by vm_compute. Qed.

(** C10, as stated, fails on a category that starts with a hyphen: that
    first hyphen is kept and it is the second hyphen that becomes a space. *)
Lemma formatCategoryName_leading_hyphen :
  ¬ (∀ category, formatCategoryName category = claimedFormat category)
  ∧ ¬ (∀ category,
         drop 1 (hyphens category) ⊆ hyphens (formatCategoryName category)).
Proof.
  split; intros H; specialize (H "-a-b").
  - vm_compute in H. discriminate H.
  - vm_compute in H. specialize (H 2%nat (list_elem_of_here _ _)).
    apply list_elem_of_singleton in H. discriminate H.
Qed.

(** C10, amended: for a category whose first character is in the ASCII
    range, the label is the category with its first character in upper case
    and with the first hyphen found after the first character replaced by a
    space.  Everything after that hyphen is kept as it is, so any later
    hyphen remains; a hyphen in first position remains as well; without a
    hyphen after the first character nothing else changes.  The empty
    category gives the empty label. *)
Theorem formatCategoryName_first_inner_hyphen :
  (∀ a pre post,
     isAscii a = true →
     "-"%char ∉ pre →
     formatCategoryName (string_of_list_ascii (a :: pre ++ "-"%char :: post))
     = string_of_list_ascii (toUpperAscii a :: pre ++ " "%char :: post))
  ∧ (∀ a rest,
       isAscii a = true →
       "-"%char ∉ rest →
       formatCategoryName (string_of_list_ascii (a :: rest))
       = string_of_list_ascii (toUpperAscii a :: rest))
  ∧ formatCategoryName "" = ""
  ∧ isAscii "-" = true
  ∧ toUpperAscii "-" = "-"%char.
Proof.
  split_and!.
  - intros a pre post _ Hpre. unfold formatCategoryName.
    rewrite list_ascii_of_string_of_list_ascii.
    cbn [charAt0 slice1 take drop toUpperCase map app].
    rewrite take_0, drop_0. cbn [map app]. by rewrite replace_first_hyphen.
  - intros a rest _ Hrest. unfold formatCategoryName.
    rewrite list_ascii_of_string_of_list_ascii.
    cbn [charAt0 slice1 take drop toUpperCase map app].
    rewrite take_0, drop_0. cbn [map app]. by rewrite replace_no_hyphen.
  - reflexivity.
  - reflexivity.
  - reflexivity.
Qed.

(** C10 at work: one inner hyphen replaced, later and leading hyphens
    kept. *)
Lemma formatCategoryName_first_inner_hyphen_witness :
  isAscii "u" = true
  ∧ ("-"%char ∉ list_ascii_of_string "ser")
  ∧ formatCategoryName "user-research-basics" = "User research-basics"
  ∧ isAscii "-" = true
  ∧ ("-"%char ∉ list_ascii_of_string "a")
  ∧ formatCategoryName "-a-b" = "-a b"
  ∧ isAscii "d" = true
  ∧ ("-"%char ∉ list_ascii_of_string "esign")
  ∧ formatCategoryName "design" = "Design".
Proof.
  assert (H1 : "-"%char ∉ list_ascii_of_string "ser")
    by (apply (bool_decide_unpack _); vm_compute; exact I).
  assert (H2 : "-"%char ∉ list_ascii_of_string "a")
    by (apply (bool_decide_unpack _); vm_compute; exact I).
  assert (H3 : "-"%char ∉ list_ascii_of_string "esign")
    by (apply (bool_decide_unpack _); vm_compute; exact I).
  assert (A1 : isAscii "u" = true) by reflexivity.
  assert (A2 : isAscii "-" = true) by reflexivity.
  assert (A3 : isAscii "d" = true) by reflexivity.
  split_and!; try assumption.
  - exact (proj1 formatCategoryName_first_inner_hyphen "u"%char
             (list_ascii_of_string "ser")
             (list_ascii_of_string "research-basics") A1 H1).
  - exact (proj1 formatCategoryName_first_inner_hyphen "-"%char
             (list_ascii_of_string "a") (list_ascii_of_string "b") A2 H2).
  - exact (proj1 (proj2 formatCategoryName_first_inner_hyphen) "d"%char
             (list_ascii_of_string "esign") A3 H3).
Defined.

(** * Further properties *)

(** ** parseDuration *)

Lemma matchAt_no_digit a s : isDigit a = false → matchAt durationRe (a :: s) = None.
Proof. intros H. unfold matchAt. simpl. by rewrite H. Qed.

Lemma exec_skip_prefix pre s :
  forallb (λ a, negb (isDigit a)) pre = true →
  exec durationRe (pre ++ s) = exec durationRe s.
Proof.
  induction pre as [|a pre IH]; [done|]. cbn [forallb app exec].
  intros [Ha Hpre]%andb_prop. apply negb_true_iff in Ha.
  rewrite matchAt_no_digit by done. by apply IH.
Qed.

(** X1: text before the first digit is skipped: a duration text with a
    prefix that contains no digit gives the same day count as the text
    without the prefix. *)
Theorem parseDuration_skips_prefix (pre s : list ascii) :
  forallb (λ a, negb (isDigit a)) pre = true →
  parseDuration (string_of_list_ascii (pre ++ s))
  = parseDuration (string_of_list_ascii s).
Proof.
  intros H. unfold parseDuration.
  rewrite !list_ascii_of_string_of_list_ascii. by rewrite exec_skip_prefix.
Qed.

(** X1 at work: "approx. 2-4 days" is read as "2-4 days". *)
Lemma parseDuration_skips_prefix_witness :
  forallb (λ a, negb (isDigit a)) (list_ascii_of_string "approx. ") = true
  ∧ parseDuration "approx. 2-4 days" = parseDuration "2-4 days".
Proof.
  assert (H : forallb (λ a, negb (isDigit a)) (list_ascii_of_string "approx. ")
              = true) by reflexivity.
  split; [exact H|].
  exact (parseDuration_skips_prefix (list_ascii_of_string "approx. ")
           (list_ascii_of_string "2-4 days") H).
Defined.

(** X2: a duration text without any decimal digit never matches and gives
    the default of 2 days. *)
Theorem parseDuration_default_without_digit (s : string) :
  forallb (λ a, negb (isDigit a)) (list_ascii_of_string s) = true →
  parseDuration s = 2.
Proof.
  intros H. unfold parseDuration. by rewrite exec_no_digit.
Qed.

(** X2 at work: "a few days" has a unit but no number. *)
Lemma parseDuration_default_without_digit_witness :
  forallb (λ a, negb (isDigit a)) (list_ascii_of_string "a few days") = true
  ∧ parseDuration "a few days" = 2.
Proof.
  assert (H : forallb (λ a, negb (isDigit a)) (list_ascii_of_string "a few days")
              = true) by reflexivity.
  split; [exact H|].
  exact (parseDuration_default_without_digit "a few days" H).
Defined.

Lemma neg_div_neg_2 (z : Z) : (- ((- z) / 2) = (z + 1) / 2)%Z.
Proof.
  pose proof (Z.div_mod (- z) 2 ltac:(lia)).
  pose proof (Z.mod_pos_bound (- z) 2 ltac:(lia)).
  pose proof (Z.div_mod (z + 1) 2 ltac:(lia)).
  pose proof (Z.mod_pos_bound (z + 1) 2 ltac:(lia)). lia.
Qed.

Lemma ceil_half (z : Z) : ceil (inject_Z z / 2)%Q = (z + 1) / 2.
Proof.
  unfold ceil, Qceiling, Qfloor, Qdiv, Qmult, Qinv, Qopp, inject_Z. simpl.
  change (Z.pos (1 * 2)) with 2. rewrite Z.mul_1_r. apply neg_div_neg_2.
Qed.

Lemma ceil_half_week (z : Z) : ceil (inject_Z z / 2 * 7)%Q = (7 * z + 1) / 2.
Proof.
  unfold ceil, Qceiling, Qfloor, Qdiv, Qmult, Qinv, Qopp, inject_Z. simpl.
  change (Z.pos (1 * 2 * 1)) with 2. rewrite Z.mul_1_r, neg_div_neg_2.
  f_equal. lia.
Qed.

(** The rounded midpoint in integer arithmetic. *)
Lemma roundedMidpoint_integer min max week :
  roundedMidpoint min max week
  = ((if week then 7 else 1) * (min + max) + 1) / 2.
Proof.
  unfold roundedMidpoint. destruct week.
  - apply ceil_half_week.
  - rewrite ceil_half. f_equal. lia.
Qed.

(** X3: for a text that starts with a range [N-M], a blank and a unit, and
    whose arithmetic is exact ([k * (N + M)] is at most [MAX_SAFE_INTEGER]),
    the day count is the integer [(k * (N + M) + 1) / 2], where [k] is 7 for
    weeks and 1 for days; it lies between [k] times the smaller and [k]
    times the larger bound, whichever order the bounds are written in. *)
Theorem parseDuration_range_between (n m ws u tail : list ascii) :
  numeral n = true →
  numeral m = true →
  blank ws = true →
  toLowerCase u = list_ascii_of_string "day"
  ∨ toLowerCase u = list_ascii_of_string "week" →
  exactMidpoint (parseInt n) (parseInt m)
    (bool_decide (toLowerCase u = list_ascii_of_string "week")) = true →
  let k := if bool_decide (toLowerCase u = list_ascii_of_string "week")
           then 7 else 1 in
  let days := parseDuration
                (string_of_list_ascii (boundsText n (Some m) ++ ws ++ u ++ tail)) in
  days = (k * (parseInt n + parseInt m) + 1) / 2
  ∧ (k * Z.min (parseInt n) (parseInt m) ≤ days)%Z
  ∧ (days ≤ k * Z.max (parseInt n) (parseInt m))%Z.
Proof.
  intros Hn Hm Hws Hu _ k days. unfold days, k.
  rewrite (parseDuration_of_text n (Some m) ws u tail Hn Hm Hws Hu).
  rewrite roundedMidpoint_integer. change (default n (Some m)) with m.
  destruct (bool_decide (toLowerCase u = list_ascii_of_string "week"));
    cbv iota; (split; [done|]).
  - pose proof (Z.div_mod (7 * (parseInt n + parseInt m) + 1) 2 ltac:(lia)).
    pose proof (Z.mod_pos_bound (7 * (parseInt n + parseInt m) + 1) 2 ltac:(lia)).
    lia.
  - pose proof (Z.div_mod (1 * (parseInt n + parseInt m) + 1) 2 ltac:(lia)).
    pose proof (Z.mod_pos_bound (1 * (parseInt n + parseInt m) + 1) 2 ltac:(lia)).
    lia.
Qed.

(** X3 at work: "5-2 weeks", with the bounds in descending order. *)
Lemma parseDuration_range_between_witness :
  numeral (list_ascii_of_string "5") = true
  ∧ numeral (list_ascii_of_string "2") = true
  ∧ blank (list_ascii_of_string " ") = true
  ∧ (toLowerCase (list_ascii_of_string "week") = list_ascii_of_string "day"
     ∨ toLowerCase (list_ascii_of_string "week") = list_ascii_of_string "week")
  ∧ exactMidpoint 5 2 true = true
  ∧ parseDuration "5-2 weeks" = 25
  ∧ (14 ≤ parseDuration "5-2 weeks")%Z
  ∧ (parseDuration "5-2 weeks" ≤ 35)%Z.
Proof.
  assert (H1 : numeral (list_ascii_of_string "5") = true) by reflexivity.
  assert (H2 : numeral (list_ascii_of_string "2") = true) by reflexivity.
  assert (H3 : blank (list_ascii_of_string " ") = true) by reflexivity.
  assert (H4 : toLowerCase (list_ascii_of_string "week")
                 = list_ascii_of_string "day"
               ∨ toLowerCase (list_ascii_of_string "week")
                 = list_ascii_of_string "week") by (right; reflexivity).
  assert (H5 : exactMidpoint 5 2 true = true) by reflexivity.
  split_and!; try assumption;
    apply (parseDuration_range_between (list_ascii_of_string "5")
             (list_ascii_of_string "2") (list_ascii_of_string " ")
             (list_ascii_of_string "week") (list_ascii_of_string "s")
             H1 H2 H3 H4 H5).
Defined.

(** X4: for a text that starts with a single bound [N], a blank and a unit,
    and whose arithmetic is exact ([k * (N + N)] is at most
    [MAX_SAFE_INTEGER]), the day count is exactly [N] for days and [7 * N]
    for weeks: no rounding up takes place. *)
Theorem parseDuration_single_exact (n ws u tail : list ascii) :
  numeral n = true →
  blank ws = true →
  toLowerCase u = list_ascii_of_string "day"
  ∨ toLowerCase u = list_ascii_of_string "week" →
  exactMidpoint (parseInt n) (parseInt n)
    (bool_decide (toLowerCase u = list_ascii_of_string "week")) = true →
  parseDuration (string_of_list_ascii (boundsText n None ++ ws ++ u ++ tail))
  = (if bool_decide (toLowerCase u = list_ascii_of_string "week")
     then 7 else 1) * parseInt n.
Proof.
  intros Hn Hws Hu _.
  rewrite (parseDuration_of_text n None ws u tail Hn eq_refl Hws Hu).
  rewrite roundedMidpoint_integer. change (default n None) with n.
  destruct (bool_decide (toLowerCase u = list_ascii_of_string "week"));
    cbv iota.
  - pose proof (Z.div_mod (7 * (parseInt n + parseInt n) + 1) 2 ltac:(lia)).
    pose proof (Z.mod_pos_bound (7 * (parseInt n + parseInt n) + 1) 2 ltac:(lia)).
    lia.
  - pose proof (Z.div_mod (1 * (parseInt n + parseInt n) + 1) 2 ltac:(lia)).
    pose proof (Z.mod_pos_bound (1 * (parseInt n + parseInt n) + 1) 2 ltac:(lia)).
    lia.
Qed.

(** X4 at work: "12 WEEKS" is 84 days. *)
Lemma parseDuration_single_exact_witness :
  numeral (list_ascii_of_string "12") = true
  ∧ blank (list_ascii_of_string " ") = true
  ∧ (toLowerCase (list_ascii_of_string "WEEK") = list_ascii_of_string "day"
     ∨ toLowerCase (list_ascii_of_string "WEEK") = list_ascii_of_string "week")
  ∧ exactMidpoint 12 12 true = true
  ∧ parseDuration "12 WEEKS" = 84.
Proof.
  assert (H1 : numeral (list_ascii_of_string "12") = true) by reflexivity.
  assert (H3 : blank (list_ascii_of_string " ") = true) by reflexivity.
  assert (H4 : toLowerCase (list_ascii_of_string "WEEK")
                 = list_ascii_of_string "day"
               ∨ toLowerCase (list_ascii_of_string "WEEK")
                 = list_ascii_of_string "week") by (right; reflexivity).
  assert (H5 : exactMidpoint 12 12 true = true) by reflexivity.
  split_and!; try assumption.
  exact (parseDuration_single_exact (list_ascii_of_string "12")
           (list_ascii_of_string " ") (list_ascii_of_string "WEEK")
           (list_ascii_of_string "S") H1 H3 H4 H5).
Defined.

(** ** The timeline, further *)

Lemma parseDuration_nonneg (s : string) : (0 ≤ parseDuration s)%Z.
Proof.
  destruct (parseDuration_cases s)
    as [[_ ->]|(pre & n & om & ws & u & tail & Hs & Hn & Hom & Hws & Hu & ->)];
    [done|].
  pose proof (parseInt_nonneg n Hn) as H1.
  assert (0 ≤ parseInt (default n om))%Z as H2.
  { destruct om as [x|]; simpl in *; by apply parseInt_nonneg. }
  rewrite roundedMidpoint_integer.
  destruct (bool_decide (toLowerCase u = list_ascii_of_string "week"));
    apply Z.div_pos; lia.
Qed.

Lemma durations_nonneg plan : Forall (λ d, 0 ≤ d)%Z (durations plan).
Proof.
  unfold durations. apply Forall_fmap, Forall_forall. intros t _.
  apply parseDuration_nonneg.
Qed.

Lemma sumZ_nonneg l : Forall (λ d, 0 ≤ d)%Z l → (0 ≤ sumZ l)%Z.
Proof. induction 1; simpl; lia. Qed.

Lemma backToBack_last day plan :
  List.last (map TimelineItem.endDay (backToBack day plan)) day
  = day + sumZ (durations plan).
Proof.
  revert day. induction plan as [|t plan IH]; intros day; [simpl; lia|].
  cbn [backToBack map TimelineItem.endDay durations sumZ foldr].
  rewrite last_cons_last, IH. unfold durations, sumZ. lia.
Qed.

Lemma generateTimeline_totalDays (this : ProjectPlanner) :
  totalDays (generateTimeline this) = sumZ (durations (projectPlan this)).
Proof.
  unfold generateTimeline. rewrite generateTimeline_from.
  cbn [totalDays]. rewrite backToBack_last. lia.
Qed.

(** X5: for a plan on which the additions are exact (the durations are
    parsed exactly and add up to at most [MAX_SAFE_INTEGER]), [totalDays] is
    the sum of the parsed durations of the tasks of the plan; it is not
    negative and it is a safe integer. *)
Theorem generateTimeline_total (this : ProjectPlanner) :
  exactSchedule (projectPlan this) = true →
  totalDays (generateTimeline this) = sumZ (durations (projectPlan this))
  ∧ (0 ≤ totalDays (generateTimeline this) ≤ MAX_SAFE_INTEGER)%Z.
Proof.
  intros [_ Hsum%Z.leb_le]%andb_prop.
  rewrite generateTimeline_totalDays. split; [done|]. split; [|done].
  apply sumZ_nonneg, durations_nonneg.
Qed.

(** X5 at work: a week and two to four days are 10 days. *)
Lemma generateTimeline_total_witness :
  exactSchedule (projectPlan twoSelected) = true
  ∧ totalDays (generateTimeline twoSelected) = 7 + 3.
Proof.
  assert (H : exactSchedule (projectPlan twoSelected) = true)
    by (vm_compute; reflexivity).
  split; [exact H|].
  exact (proj1 (generateTimeline_total twoSelected H)).
Defined.

Lemma backToBack_bounds day plan :
  Forall (λ e, (day + 1 ≤ TimelineItem.startDay e)%Z
               ∧ (TimelineItem.startDay e - 1 ≤ TimelineItem.endDay e)%Z
               ∧ (TimelineItem.endDay e ≤ day + sumZ (durations plan))%Z
               ∧ ((TimelineItem.endDay e < TimelineItem.startDay e)%Z
                  ↔ TimelineItem.duration e = 0))
    (backToBack day plan).
Proof.
  revert day. induction plan as [|t plan IH]; intros day; [constructor|].
  pose proof (parseDuration_nonneg (duration t)) as Hd.
  pose proof (sumZ_nonneg _ (durations_nonneg plan)) as Hs.
  cbn [backToBack durations map sumZ foldr]. fold (durations plan).
  fold (sumZ (durations plan)). constructor.
  - cbn. split_and!; lia.
  - eapply Forall_impl; [apply IH|]. cbn. intros e (? & ? & ? & ?).
    split_and!; [lia | lia | lia | done].
Qed.

(** X6: for a plan on which the additions are exact, every timeline entry
    starts on day 1 or later and ends no later than [totalDays]; its end day
    is never more than one day before its start day, and it is before the
    start day exactly when the parsed duration is 0 (a range such as
    "Days 5-4"). *)
Theorem generateTimeline_entry_bounds (this : ProjectPlanner) :
  exactSchedule (projectPlan this) = true →
  Forall (λ e, (1 ≤ TimelineItem.startDay e)%Z
               ∧ (TimelineItem.startDay e - 1 ≤ TimelineItem.endDay e)%Z
               ∧ (TimelineItem.endDay e ≤ totalDays (generateTimeline this))%Z
               ∧ ((TimelineItem.endDay e < TimelineItem.startDay e)%Z
                  ↔ TimelineItem.duration e = 0))
    (timeline (generateTimeline this)).
Proof.
  intros _. unfold generateTimeline. rewrite generateTimeline_from.
  cbn [timeline totalDays app]. rewrite backToBack_last.
  eapply Forall_impl; [apply (backToBack_bounds 0)|]. cbn.
  intros e (? & ? & ? & ?). split_and!; [lia | lia | lia | done].
Qed.

(** X6 at work: the two entries of a plan of a week and two to four days. *)
Lemma generateTimeline_entry_bounds_witness :
  exactSchedule (projectPlan twoSelected) = true
  ∧ Forall (λ e, (1 ≤ TimelineItem.startDay e)%Z
                 ∧ (TimelineItem.startDay e - 1 ≤ TimelineItem.endDay e)%Z
                 ∧ (TimelineItem.endDay e ≤ totalDays (generateTimeline twoSelected))%Z
                 ∧ ((TimelineItem.endDay e < TimelineItem.startDay e)%Z
                    ↔ TimelineItem.duration e = 0))
      (timeline (generateTimeline twoSelected)).
Proof.
  assert (H : exactSchedule (projectPlan twoSelected) = true)
    by (vm_compute; reflexivity).
  split; [exact H|].
  exact (generateTimeline_entry_bounds twoSelected H).
Defined.

Lemma generateTimeline_snoc sel sel' plan t :
  generateTimeline {| selectedTasks := sel'; projectPlan := plan ++ [t] |}
  = scheduleTask
      (generateTimeline {| selectedTasks := sel; projectPlan := plan |}) t.
Proof. unfold generateTimeline. cbn [projectPlan]. by rewrite fold_left_app. Qed.

(** X7: selecting a task whose id is not yet in the plan leaves the existing
    timeline entries as they are and adds one entry after them; when the
    additions on the new plan are exact, that entry starts on the day after
    the previous [totalDays], and [totalDays] grows by the parsed duration
    of the task. *)
Theorem select_extends_timeline (t : Task) (this : ProjectPlanner) :
  id t ∉ map id (projectPlan this) →
  exactSchedule (projectPlan (select t this)) = true →
  let before := generateTimeline this in
  let after := generateTimeline (select t this) in
  timeline after = timeline before ++ [entryAfter (totalDays before) t]
  ∧ totalDays after = totalDays before + parseDuration (duration t).
Proof.
  intros Hfresh _ before after. unfold after, before, select, handleTaskSelection.
  cbn [fst checked taskCard]. rewrite (addToProjectPlan_fresh _ _ Hfresh).
  rewrite (generateTimeline_snoc (selectedTasks this)).
  by destruct this.
Qed.

(** X7 at work: a second task selected after a one-week task. *)
Lemma select_extends_timeline_witness :
  (id (sampleTask "b" "2-4 days" "research") ∉ map id (projectPlan oneSelected))
  ∧ exactSchedule
      (projectPlan (select (sampleTask "b" "2-4 days" "research") oneSelected))
    = true
  ∧ timeline (generateTimeline
                (select (sampleTask "b" "2-4 days" "research") oneSelected))
    = timeline (generateTimeline oneSelected)
        ++ [entryAfter 7 (sampleTask "b" "2-4 days" "research")]
  ∧ totalDays (generateTimeline
                 (select (sampleTask "b" "2-4 days" "research") oneSelected))
    = 7 + 3.
Proof.
  assert (H : id (sampleTask "b" "2-4 days" "research")
              ∉ map id (projectPlan oneSelected))
    by (apply (bool_decide_unpack _); vm_compute; exact I).
  assert (H' : exactSchedule
                 (projectPlan
                    (select (sampleTask "b" "2-4 days" "research") oneSelected))
               = true) by (vm_compute; reflexivity).
  split; [exact H|]. split; [exact H'|].
  exact (select_extends_timeline (sampleTask "b" "2-4 days" "research")
           oneSelected H H').
Defined.

(** ** The selection store, further *)

(** X8: deselecting a task and selecting it again moves it to the end: its
    id becomes the last selected id and the record of the newly selected
    card becomes the last plan entry, while the other ids and records keep
    their order. *)
Theorem reselect_moves_to_end (t : Task) (this : ProjectPlanner) :
  select t (deselect t this)
  = {| selectedTasks := Set_delete (id t) (selectedTasks this) ++ [id t];
       projectPlan := removeFromProjectPlan (id t) (projectPlan this) ++ [t] |}.
Proof.
  unfold select, deselect, handleTaskSelection. cbn [fst checked taskCard].
  cbn [selectedTasks projectPlan]. f_equal.
  - apply Set_add_fresh. unfold Set_delete.
    intros [H _]%list_elem_of_filter. done.
  - apply addToProjectPlan_fresh. rewrite removeFromProjectPlan_ids.
    unfold Set_delete. intros [H _]%list_elem_of_filter. done.
Qed.

(** X9: deselecting a task whose id is neither selected nor in the plan
    changes neither the selected ids nor the plan. *)
Theorem deselect_absent (t : Task) (this : ProjectPlanner) :
  id t ∉ selectedTasks this →
  id t ∉ map id (projectPlan this) →
  deselect t this = this.
Proof.
  intros Hs Hp. unfold deselect, handleTaskSelection. cbn [fst checked taskCard].
  unfold Set_delete, removeFromProjectPlan.
  rewrite (filter_absent (λ y, y ≠ id t) (selectedTasks this)).
  2:{ apply Forall_forall. by intros x Hx ->. }
  rewrite (filter_absent (λ task, id task ≠ id t) (projectPlan this)).
  2:{ apply Forall_forall. intros x Hx E. apply Hp. rewrite <- E.
      by apply list_elem_of_fmap_2. }
  by destruct this.
Qed.

(** X9 at work: task b is deselected while only task a is selected. *)
Lemma deselect_absent_witness :
  (id (sampleTask "b" "2-4 days" "research") ∉ selectedTasks oneSelected)
  ∧ (id (sampleTask "b" "2-4 days" "research") ∉ map id (projectPlan oneSelected))
  ∧ deselect (sampleTask "b" "2-4 days" "research") oneSelected = oneSelected.
Proof.
  assert (H1 : id (sampleTask "b" "2-4 days" "research") ∉ selectedTasks oneSelected)
    by (apply (bool_decide_unpack _); vm_compute; exact I).
  assert (H2 : id (sampleTask "b" "2-4 days" "research")
               ∉ map id (projectPlan oneSelected))
    by (apply (bool_decide_unpack _); vm_compute; exact I).
  split_and!; [exact H1 | exact H2 |].
  exact (deselect_absent _ oneSelected H1 H2).
Defined.

(** ** Grouping, further *)

Lemma insertBy_Permutation {A} (key : A → Z) x l : insertBy key x l ≡ₚ x :: l.
Proof.
  induction l as [|y l IH]; [done|]. cbn [insertBy].
  destruct (key x <=? key y)%Z; [done|]. rewrite IH. apply Permutation_swap.
Qed.

Lemma sortBy_Permutation {A} (key : A → Z) l : sortBy key l ≡ₚ l.
Proof.
  unfold sortBy. induction l as [|x l IH]; [done|]. cbn [foldr].
  rewrite insertBy_Permutation. by constructor.
Qed.

Lemma ownKeyOrder_Permutation {A} (name : A → string) l : ownKeyOrder name l ≡ₚ l.
Proof.
  unfold ownKeyOrder. rewrite sortBy_Permutation.
  apply (filter_app_complement (λ x, isArrayIndex (name x) = true)).
Qed.

Lemma bucket_cons t plan c :
  bucket (t :: plan) c
  = if bool_decide (category t = c) then t :: bucket plan c else bucket plan c.
Proof.
  unfold bucket. rewrite filter_cons.
  by case_bool_decide; [rewrite decide_True | rewrite decide_False].
Qed.

Lemma concat_buckets_other t plan order :
  category t ∉ order →
  concat (map (bucket (t :: plan)) order) = concat (map (bucket plan) order).
Proof.
  induction order as [|c order IH]; [done|].
  intros [Hc Horder]%not_elem_of_cons. cbn [map concat].
  rewrite bucket_cons, bool_decide_eq_false_2 by done. by rewrite IH.
Qed.

Lemma concat_buckets_cons t plan order :
  NoDup order → category t ∈ order →
  concat (map (bucket (t :: plan)) order) ≡ₚ t :: concat (map (bucket plan) order).
Proof.
  induction 1 as [|c order Hc Hnd IH]; [by intros ?%elem_of_nil|].
  intros Hin. cbn [map concat]. rewrite bucket_cons.
  destruct (decide (category t = c)) as [E|E].
  - rewrite bool_decide_eq_true_2 by done.
    rewrite concat_buckets_other by (by rewrite E). done.
  - rewrite bool_decide_eq_false_2 by done.
    apply elem_of_cons in Hin as [?|Hin]; [done|].
    rewrite (IH Hin). by rewrite Permutation_middle.
Qed.

Lemma concat_buckets_nil order : concat (map (bucket []) order) = [].
Proof. induction order as [|c order IH]; [done|]. cbn. by rewrite IH. Qed.

Lemma concat_buckets plan order :
  NoDup order → (∀ t, t ∈ plan → category t ∈ order) →
  concat (map (bucket plan) order) ≡ₚ plan.
Proof.
  intros Hnd. induction plan as [|t plan IH]; intros Hcover.
  - by rewrite concat_buckets_nil.
  - rewrite concat_buckets_cons; [|done|apply Hcover, list_elem_of_here].
    constructor. apply IH. intros t' Ht'. by apply Hcover, list_elem_of_further.
Qed.

Lemma buckets_values plan order : (buckets plan order).*2 = map (bucket plan) order.
Proof. unfold buckets. by rewrite <- list_fmap_compose. Qed.

(** X10: for a plan without inherited property names among its categories,
    grouping neither loses nor duplicates a task: the buckets, taken
    together, are a permutation of the plan.  No bucket is empty, every task
    of a bucket has the category the bucket is filed under, and no category
    is listed twice. *)
Theorem groupTasksByCategory_partition (this : ProjectPlanner) :
  Forall (λ t, category t ∉ prototypeKeys) (projectPlan this) →
  ∃ categories,
    groupTasksByCategory this = Normal categories
    ∧ concat (entries categories).*2 ≡ₚ projectPlan this
    ∧ NoDup (keys categories)
    ∧ Forall (λ p, p.2 ≠ [] ∧ Forall (λ t, category t = p.1) p.2)
        (entries categories).
Proof.
  intros Hproto. exists (grouped (projectPlan this)).
  destruct (firstSeen_spec (map category (projectPlan this))) as [Hnd Hin].
  pose proof (ownKeyOrder_Permutation (λ c : string, c)
                (firstSeen (map category (projectPlan this)))) as Hperm.
  split_and!.
  - by apply groupTasksByCategory_grouped.
  - unfold grouped. rewrite entries_buckets, buckets_values.
    apply concat_buckets; [by rewrite Hperm|].
    intros t Ht. rewrite Hperm. apply (proj2 (Hin _)). by apply list_elem_of_fmap_2.
  - unfold keys, grouped. rewrite entries_buckets, keys_buckets. by rewrite Hperm.
  - unfold grouped. rewrite entries_buckets. unfold buckets.
    apply Forall_fmap, Forall_forall. intros c Hc. cbn.
    rewrite Hperm in Hc. apply (proj1 (Hin c)) in Hc.
    apply list_elem_of_fmap in Hc as (t & -> & Ht). split.
    + intros E. assert (t ∈ bucket (projectPlan this) (category t)) as Hb
        by (by apply list_elem_of_filter).
      rewrite E in Hb. by apply elem_of_nil in Hb.
    + apply Forall_forall. by intros t' [? _]%list_elem_of_filter.
Qed.

(** X10 at work: categories x, y, x, z. *)
Lemma groupTasksByCategory_partition_witness :
  Forall (λ t, category t ∉ prototypeKeys) (projectPlan repeatedCategories)
  ∧ ∃ categories,
      groupTasksByCategory repeatedCategories = Normal categories
      ∧ concat (entries categories).*2 ≡ₚ projectPlan repeatedCategories
      ∧ NoDup (keys categories).
Proof.
  assert (Hproto : Forall (λ t, category t ∉ prototypeKeys)
                     (projectPlan repeatedCategories)).
  { repeat constructor; apply (bool_decide_unpack _); vm_compute; exact I. }
  split; [exact Hproto|].
  destruct (groupTasksByCategory_partition repeatedCategories Hproto)
    as (categories & Hg & Hp & Hk & _).
  exists categories. split_and!; assumption.
Defined.

Lemma groupTask_inherited plan t :
  Forall (λ t, category t ∉ prototypeKeys) plan →
  category t ∈ prototypeKeys →
  groupTask (grouped plan) t = Throw (grouped plan).
Proof.
  intros Hplan Ht. unfold groupTask, get, grouped, buckets.
  rewrite (getOwn_buckets (bucket plan)).
  rewrite bool_decide_eq_false_2.
  - by rewrite bool_decide_eq_true_2.
  - intros Hin. apply (proj1 (proj2 (firstSeen_spec _) _)) in Hin.
    apply list_elem_of_fmap in Hin as (t' & E & Ht').
    rewrite Forall_forall in Hplan. apply (Hplan t' Ht'). by rewrite <- E.
Qed.

Lemma groupTasks_inherited rest plan :
  Forall (λ t, category t ∉ prototypeKeys) plan →
  Exists (λ t, category t ∈ prototypeKeys) rest →
  ∃ categories, groupTasks rest (grouped plan) = Throw categories.
Proof.
  intros Hplan Hrest. revert plan Hplan.
  induction rest as [|t rest IH]; intros plan Hplan;
    [by apply Exists_nil in Hrest|].
  cbn [groupTasks].
  destruct (decide (category t ∈ prototypeKeys)) as [Ht|Ht].
  - rewrite groupTask_inherited by done. by eexists.
  - rewrite groupTask_grouped by done. cbn [andThen].
    apply IH.
    + apply Exists_cons in Hrest as [?|?]; done.
    + apply Forall_app. split; [done|]. by constructor.
Qed.

(** X11: [groupTasksByCategory] throws exactly when the category of some
    task of the plan is a property name inherited from [Object.prototype],
    and otherwise returns the object of buckets.  With something selected
    and such a category in the plan, [generateProjectPlan] therefore ends in
    the [TypeError], before a document is built. *)
Theorem groupTasksByCategory_throws_iff (this : ProjectPlanner) :
  ((∃ categories, groupTasksByCategory this = Throw categories)
   ↔ Exists inherited (projectPlan this))
  ∧ (groupTasksByCategory this = Normal (grouped (projectPlan this))
     ↔ Forall (λ t, ¬ inherited t) (projectPlan this))
  ∧ (∀ today, selectedTasks this ≠ [] → Exists inherited (projectPlan this) →
     generateProjectPlan today this = TypeError).
Proof.
  assert (Exists inherited (projectPlan this) →
          ∃ categories, groupTasksByCategory this = Throw categories) as Hthrow.
  { intros Hex. unfold groupTasksByCategory.
    exact (groupTasks_inherited (projectPlan this) [] ltac:(constructor) Hex). }
  assert (Forall (λ t, ¬ inherited t) (projectPlan this) →
          groupTasksByCategory this = Normal (grouped (projectPlan this)))
    as Hnormal.
  { intros Hno. by apply groupTasksByCategory_grouped. }
  assert (Forall (λ t, ¬ inherited t) (projectPlan this)
          ∨ Exists inherited (projectPlan this)) as Hcases.
  { destruct (decide (Exists inherited (projectPlan this))) as [|Hno];
      [by right|left].
    apply not_Exists_Forall in Hno; [done|]. intros t. unfold inherited. apply _. }
  split_and!.
  - split; [|done]. intros [categories Hc].
    destruct Hcases as [Hno|]; [|done]. rewrite (Hnormal Hno) in Hc. done.
  - split; [|done]. intros Hn.
    destruct Hcases as [|Hex]; [done|].
    destruct (Hthrow Hex) as [categories Hc]. rewrite Hc in Hn. done.
  - intros today Hsel Hex. unfold generateProjectPlan, Set_size.
    rewrite bool_decide_eq_false_2 by (by destruct (selectedTasks this)).
    destruct (Hthrow Hex) as [categories ->]. done.
Qed.

(** X11 at work: the one task of the plan has the category constructor. *)
Lemma groupTasksByCategory_throws_iff_witness :
  selectedTasks inheritedCategory ≠ []
  ∧ Exists inherited (projectPlan inheritedCategory)
  ∧ generateProjectPlan 0 inheritedCategory = TypeError.
Proof.
  assert (Hsel : selectedTasks inheritedCategory ≠ []) by discriminate.
  assert (Hex : Exists inherited (projectPlan inheritedCategory)).
  { apply Exists_cons_hd. apply (bool_decide_unpack _). vm_compute. exact I. }
  split_and!; [exact Hsel | exact Hex |].
  exact (proj2 (proj2 (groupTasksByCategory_throws_iff inheritedCategory))
           0 Hsel Hex).
Defined.

(** ** The plan document *)

Lemma firstSeen_length cs : length (firstSeen cs) = length (remove_dups cs).
Proof.
  destruct (firstSeen_spec cs) as [Hnd Hin].
  apply Permutation_length, NoDup_Permutation; [done | apply NoDup_remove_dups|].
  intros c. by rewrite Hin, elem_of_remove_dups.
Qed.

(** X12: with something selected, no inherited property name among the
    categories, exact additions on the plan, and a creation day from which
    the plan ends on a valid date, [generateProjectPlan] builds a document
    and calls [showPlanModal] with it.  The task count of the document is
    the length of the plan, its timeline has one entry per task, its
    category count is the number of distinct categories of the plan, and its
    completion day is the creation day plus the sum of the parsed durations,
    hence never before the creation day. *)
Theorem generateProjectPlan_document (today : Z) (this : ProjectPlanner) :
  selectedTasks this ≠ [] →
  Forall (λ t, category t ∉ prototypeKeys) (projectPlan this) →
  exactSchedule (projectPlan this) = true →
  validDates today (sumZ (durations (projectPlan this))) = true →
  ∃ planDocument,
    generateProjectPlan today this = PlanModal planDocument
    ∧ taskCount planDocument = length (projectPlan this)
    ∧ length (doc_timeline planDocument) = length (projectPlan this)
    ∧ categories planDocument
      = length (remove_dups (map category (projectPlan this)))
    ∧ createdDate planDocument = today
    ∧ estimatedDuration planDocument = sumZ (durations (projectPlan this))
    ∧ estimatedCompletion planDocument
      = today + sumZ (durations (projectPlan this))
    ∧ (createdDate planDocument ≤ estimatedCompletion planDocument ≤ maxDay)%Z.
Proof.
  intros Hsel Hproto _ [_ Hmax%Z.leb_le]%andb_prop. unfold generateProjectPlan.
  rewrite bool_decide_eq_false_2.
  2:{ unfold Set_size. by destruct (selectedTasks this). }
  rewrite (groupTasksByCategory_grouped this Hproto).
  eexists. split; [reflexivity|]. cbn.
  pose proof (generateTimeline_totalDays this) as Htotal.
  pose proof (sumZ_nonneg _ (durations_nonneg (projectPlan this))) as Hpos.
  split_and!; try done.
  - unfold generateTimeline. rewrite generateTimeline_from. cbn.
    apply backToBack_length.
  - unfold keys, grouped. rewrite entries_buckets, keys_buckets.
    rewrite <- firstSeen_length. apply Permutation_length, ownKeyOrder_Permutation.
  - by rewrite Htotal.
  - rewrite Htotal. lia.
  - rewrite Htotal. lia.
Qed.

(** X12 at work: four tasks of one day each in three categories, on day
    20000. *)
Lemma generateProjectPlan_document_witness :
  selectedTasks repeatedCategories ≠ []
  ∧ Forall (λ t, category t ∉ prototypeKeys) (projectPlan repeatedCategories)
  ∧ exactSchedule (projectPlan repeatedCategories) = true
  ∧ validDates 20000 (sumZ (durations (projectPlan repeatedCategories))) = true
  ∧ ∃ planDocument,
      generateProjectPlan 20000 repeatedCategories = PlanModal planDocument
      ∧ taskCount planDocument = 4%nat
      ∧ categories planDocument = 3%nat
      ∧ estimatedCompletion planDocument = 20004.
Proof.
  assert (Hsel : selectedTasks repeatedCategories ≠ []) by discriminate.
  assert (Hproto : Forall (λ t, category t ∉ prototypeKeys)
                     (projectPlan repeatedCategories)).
  { repeat constructor; apply (bool_decide_unpack _); vm_compute; exact I. }
  assert (Hexact : exactSchedule (projectPlan repeatedCategories) = true)
    by (vm_compute; reflexivity).
  assert (Hdates : validDates 20000
                     (sumZ (durations (projectPlan repeatedCategories))) = true)
    by (vm_compute; reflexivity).
  split_and!; [exact Hsel | exact Hproto | exact Hexact | exact Hdates |].
  destruct (generateProjectPlan_document 20000 repeatedCategories
              Hsel Hproto Hexact Hdates)
    as (planDocument & Hg & Ht & _ & Hc & _ & _ & He & _).
  exists planDocument. split_and!; [exact Hg | exact Ht | |].
  - rewrite Hc. vm_compute. reflexivity.
  - rewrite He. vm_compute. reflexivity.
Defined.

(** ** The entry points of plan generation *)

Lemma generateProjectPlan_alert today this message :
  generateProjectPlan today this = Alert message →
  selectedTasks this = []
  ∧ message = "Please select at least one task to create a project plan.".
Proof.
  unfold generateProjectPlan, Set_size. case_bool_decide as Hsize.
  - intros [= <-]. split; [by destruct (selectedTasks this)|done].
  - by destruct (groupTasksByCategory this).
Qed.

(** X13: in every state reached by change events from a consistent state
    (the constructed one, or what [init] restored from the storage an
    earlier session left), the view-plan button answers with its own alert
    exactly when nothing is selected, and it never ends in the alert of the
    create-plan button. *)
Theorem showCurrentPlan_reachable (start : ProjectPlanner)
    (events : list Checkbox) (localStorage : gmap string string) (today : Z) :
  consistent start →
  let this := (handleAll events start localStorage).1 in
  (showCurrentPlan today this
     = Alert "No tasks selected yet. Select some tasks first!"
   ↔ selectedTasks this = [])
  ∧ showCurrentPlan today this
    ≠ Alert "Please select at least one task to create a project plan.".
Proof.
  intros Hstart this.
  destruct (handleAll_consistent events start localStorage Hstart) as [_ Hids].
  fold this in Hids. unfold showCurrentPlan.
  destruct (projectPlan this) as [|t plan] eqn:Hplan; cbn [length].
  - rewrite bool_decide_eq_true_2 by done. by split.
  - rewrite bool_decide_eq_false_2 by done.
    assert (selectedTasks this ≠ []) as Hsel by (by rewrite <- Hids).
    split; [split|].
    + by intros [_ [=]]%generateProjectPlan_alert.
    + done.
    + by intros [? _]%generateProjectPlan_alert.
Qed.

(** X13 at work: the one task of a restored state is deselected, and the
    view-plan button answers with its alert. *)
Lemma showCurrentPlan_reachable_witness :
  consistent oneSelected
  ∧ showCurrentPlan 0
      (handleAll [{| checked := false;
                     taskCard := sampleTask "a" "1 week" "design" |}]
         oneSelected ∅).1
    = Alert "No tasks selected yet. Select some tasks first!".
Proof.
  assert (H : consistent oneSelected).
  { unfold consistent. apply (bool_decide_unpack _). vm_compute. exact I. }
  split; [exact H|].
  apply (proj1 (showCurrentPlan_reachable oneSelected
                  [{| checked := false;
                      taskCard := sampleTask "a" "1 week" "design" |}]
                  ∅ 0 H)).
  vm_compute. reflexivity.
Defined.

(** X14: on a page that has the create-plan button, [updateSelectedCount]
    disables the button exactly when a request for a plan would end in the
    empty-selection alert; an enabled button therefore never leads to that
    alert. *)
Theorem createPlanBtn_disabled_iff (page : Controls) (this : ProjectPlanner)
    (today : Z) :
  hasCreatePlanBtn page = true →
  ∃ button,
    createPlanBtn (updateSelectedCount page this) = Some button
    ∧ (disabled button = true
       ↔ generateProjectPlan today this
         = Alert "Please select at least one task to create a project plan.").
Proof.
  intros Hpage. unfold updateSelectedCount. cbn [createPlanBtn]. rewrite Hpage.
  eexists. split; [reflexivity|].
  unfold generateProjectPlan, Set_size.
  destruct (selectedTasks this) as [|i ids]; cbn [length].
  - rewrite bool_decide_eq_false_2 by lia. by rewrite bool_decide_eq_true_2.
  - rewrite bool_decide_eq_true_2 by lia. rewrite bool_decide_eq_false_2 by done.
    cbn [disabled]. split; [done|].
    by destruct (groupTasksByCategory _).
Qed.

(** X14 at work: four tasks selected, the button is enabled. *)
Lemma createPlanBtn_disabled_iff_witness :
  hasCreatePlanBtn {| hasSelectedCount := true; hasCreatePlanBtn := true |} = true
  ∧ ∃ button,
      createPlanBtn
        (updateSelectedCount
           {| hasSelectedCount := true; hasCreatePlanBtn := true |}
           repeatedCategories) = Some button
      ∧ textContent button = "Create Plan (4 tasks)"
      ∧ disabled button = false.
Proof.
  split; [reflexivity|].
  destruct (createPlanBtn_disabled_iff
              {| hasSelectedCount := true; hasCreatePlanBtn := true |}
              repeatedCategories 0 eq_refl) as (button & Hb & _).
  exists button. vm_compute in Hb. injection Hb as <-. by split.
Defined.

(** ** Persistence, further *)

Lemma handleAll_snoc events e this localStorage :
  handleAll (events ++ [e]) this localStorage
  = handleTaskSelection e (handleAll events this localStorage).1
      (handleAll events this localStorage).2.
Proof. unfold handleAll. by rewrite fold_left_app. Qed.

Lemma restoreIds_prefix document good more acc plan :
  Forall (λ i, invalidSelector document i = false) good →
  NoDup (acc ++ good) →
  restoreIds document (good ++ more) {| selectedTasks := acc; projectPlan := plan |}
  = restoreIds document more {| selectedTasks := acc ++ good; projectPlan := plan |}.
Proof.
  intros Hgood. revert acc. induction Hgood as [|i good Hi _ IH]; intros acc Hnd.
  - by rewrite app_nil_r.
  - cbn [app restoreIds selectedTasks projectPlan]. rewrite Hi.
    apply NoDup_app in Hnd as (Hacc & Hdisj & Hids).
    rewrite Set_add_fresh.
    2:{ intros Hin. apply (Hdisj i Hin), list_elem_of_here. }
    rewrite IH; [by rewrite <- app_assoc|].
    rewrite <- app_assoc. apply NoDup_app. split_and!; done.
Qed.

(** On a page that accepts the selectors of the selected ids, a consistent
    state is restored entirely, and nothing is logged. *)
Lemma savePlan_loadSavedPlan_selected document this localStorage :
  Forall (λ i, invalidSelector document i = false) (selectedTasks this) →
  NoDup (selectedTasks this) →
  loadSavedPlan document (savePlan this localStorage) constructed = Loaded this [].
Proof.
  intros Hdoc Hnd. unfold loadSavedPlan.
  rewrite getItem_savePlan_plan, getItem_savePlan_ids.
  unfold restorePlan. rewrite truthy_saved_plan.
  rewrite parse_stringify by apply numberFree_planToJson.
  rewrite planOfJson_planToJson. cbn [andThen].
  unfold restoreSelected. rewrite truthy_saved_ids.
  rewrite parse_stringify by apply numberFree_idsToJson.
  unfold idsToJson. rewrite stringOfJson_ids. cbn [constructed selectedTasks].
  rewrite <- (app_nil_r (selectedTasks this)) at 1.
  rewrite restoreIds_prefix by done. cbn [restoreIds app]. by destruct this.
Qed.

(** X15: what a session leaves in storage starts the next session in the
    same state.  After one or more change events handled from a consistent
    state, [init] on a page that accepts the selector of every selected id,
    with the storage the events left behind, restores exactly the selected
    ids and the plan, logs nothing, and shows the controls for that
    state. *)
Theorem init_after_events (start : ProjectPlanner) (events : list Checkbox)
    (e : Checkbox) (document : Document) (page : Controls)
    (localStorage : gmap string string) :
  consistent start →
  let w := handleAll (events ++ [e]) start localStorage in
  Forall (λ i, invalidSelector document i = false) (selectedTasks w.1) →
  init document page w.2 = Started w.1 [] (updateSelectedCount page w.1).
Proof.
  intros Hstart w Hdoc. unfold init.
  pose proof (handleAll_consistent (events ++ [e]) start localStorage Hstart)
    as [Hnd _].
  fold w in Hnd. unfold w in *. rewrite handleAll_snoc in *.
  unfold handleTaskSelection in *. cbn [fst snd] in *.
  by rewrite savePlan_loadSavedPlan_selected.
Qed.

(** X15 at work: two tasks selected, then the first one deselected, on a
    page that rejects the selector of another id. *)
Lemma init_after_events_witness :
  consistent constructed
  ∧ Forall (λ i, invalidSelector quotePage i = false)
      (selectedTasks
         (handleAll
            ([{| checked := true; taskCard := sampleTask "a" "1 week" "design" |};
              {| checked := true; taskCard := sampleTask "b" "2-4 days" "research" |}]
               ++ [{| checked := false;
                      taskCard := sampleTask "a" "1 week" "design" |}])
            constructed ∅).1)
  ∧ init quotePage {| hasSelectedCount := true; hasCreatePlanBtn := true |}
      (handleAll
         ([{| checked := true; taskCard := sampleTask "a" "1 week" "design" |};
           {| checked := true; taskCard := sampleTask "b" "2-4 days" "research" |}]
            ++ [{| checked := false;
                   taskCard := sampleTask "a" "1 week" "design" |}])
         constructed ∅).2
    = Started {| selectedTasks := ["b"];
                 projectPlan := [sampleTask "b" "2-4 days" "research"] |} []
        {| selectedCount := Some "1";
           createPlanBtn := Some {| textContent := "Create Plan (1 tasks)";
                                    disabled := false |} |}.
Proof.
  assert (H0 : consistent constructed).
  { unfold consistent. apply (bool_decide_unpack _). vm_compute. exact I. }
  assert (H : Forall (λ i, invalidSelector quotePage i = false)
                (selectedTasks
                   (handleAll
                      ([{| checked := true;
                           taskCard := sampleTask "a" "1 week" "design" |};
                        {| checked := true;
                           taskCard := sampleTask "b" "2-4 days" "research" |}]
                         ++ [{| checked := false;
                                taskCard := sampleTask "a" "1 week" "design" |}])
                      constructed ∅).1)).
  { apply (bool_decide_unpack _). vm_compute. exact I. }
  split_and!; [exact H0 | exact H |].
  exact (init_after_events constructed
           [{| checked := true; taskCard := sampleTask "a" "1 week" "design" |};
            {| checked := true; taskCard := sampleTask "b" "2-4 days" "research" |}]
           {| checked := false; taskCard := sampleTask "a" "1 week" "design" |}
           quotePage {| hasSelectedCount := true; hasCreatePlanBtn := true |} ∅
           H0 H).
Defined.

(** X16: restoring the selected ids stops at the first id for which
    [document.querySelector] rejects the selector: that id and the ids
    before it are selected, the ids after it are not, the error is logged,
    and the plan is restored all the same. *)
Theorem loadSavedPlan_stops_at_invalid_selector (document : Document)
    (this : ProjectPlanner) (localStorage : gmap string string)
    (good : list string) (bad : string) (rest : list string) :
  selectedTasks this = good ++ bad :: rest →
  NoDup (good ++ [bad]) →
  Forall (λ i, invalidSelector document i = false) good →
  invalidSelector document bad = true →
  loadSavedPlan document (savePlan this localStorage) constructed
  = Loaded {| selectedTasks := good ++ [bad]; projectPlan := projectPlan this |}
      loadError.
Proof.
  intros Hsel Hnd Hgood Hbad. unfold loadSavedPlan.
  rewrite getItem_savePlan_plan, getItem_savePlan_ids.
  unfold restorePlan. rewrite truthy_saved_plan.
  rewrite parse_stringify by apply numberFree_planToJson.
  rewrite planOfJson_planToJson. cbn [andThen].
  unfold restoreSelected. rewrite truthy_saved_ids.
  rewrite parse_stringify by apply numberFree_idsToJson.
  unfold idsToJson. rewrite stringOfJson_ids. cbn [constructed selectedTasks].
  rewrite Hsel. apply NoDup_app in Hnd as (Hg & Hdisj & _).
  rewrite restoreIds_prefix; [|done|done].
  cbn [app restoreIds selectedTasks projectPlan]. rewrite Hbad.
  rewrite Set_add_fresh; [done|].
  intros Hin. apply (Hdisj bad Hin), list_elem_of_here.
Qed.

(** X16 at work: three ids were saved, the second one starting with a double
    quote; the third one is not restored. *)
Lemma loadSavedPlan_stops_at_invalid_selector_witness :
  selectedTasks quotedSelected = ["a"] ++ quotedId :: ["c"]
  ∧ NoDup (["a"] ++ [quotedId])
  ∧ Forall (λ i, invalidSelector quotePage i = false) ["a"]
  ∧ invalidSelector quotePage quotedId = true
  ∧ loadSavedPlan quotePage (savePlan quotedSelected ∅) constructed
    = Loaded {| selectedTasks := ["a"; quotedId];
                projectPlan := [sampleTask "a" "1 week" "design"] |} loadError.
Proof.
  assert (H1 : selectedTasks quotedSelected = ["a"] ++ quotedId :: ["c"])
    by reflexivity.
  assert (H2 : NoDup (["a"] ++ [quotedId]))
    by (apply (bool_decide_unpack _); vm_compute; exact I).
  assert (H3 : Forall (λ i, invalidSelector quotePage i = false) ["a"])
    by (repeat constructor).
  assert (H4 : invalidSelector quotePage quotedId = true) by reflexivity.
  split_and!; try assumption.
  exact (loadSavedPlan_stops_at_invalid_selector quotePage quotedSelected ∅
           ["a"] quotedId ["c"] H1 H2 H3 H4).
Defined.

Lemma Set_add_NoDup x (s : list string) : NoDup s → NoDup (Set_add x s).
Proof.
  intros H. unfold Set_add, Set_has. case_bool_decide; [done|].
  apply NoDup_app. split_and!; [done | | apply NoDup_singleton].
  by intros y Hy ->%list_elem_of_singleton.
Qed.

Lemma restoreIds_NoDup document taskIds this this' :
  NoDup (selectedTasks this) →
  restoreIds document taskIds this = Normal this'
  ∨ restoreIds document taskIds this = Throw this' →
  NoDup (selectedTasks this').
Proof.
  revert this. induction taskIds as [|i taskIds IH]; intros this Hnd; simpl.
  - by intros [[= <-]|[=]].
  - destruct (invalidSelector document i).
    + intros [[=]|[= <-]]. by apply Set_add_NoDup.
    + apply IH. by apply Set_add_NoDup.
Qed.

(** X17: however the stored list of ids looks, the selected ids after
    [loadSavedPlan] into the constructed state contain no id twice. *)
Theorem loadSavedPlan_selected_NoDup (document : Document)
    (localStorage : gmap string string) (this : ProjectPlanner)
    (console : list string) :
  loadSavedPlan document localStorage constructed = Loaded this console →
  NoDup (selectedTasks this).
Proof.
  unfold loadSavedPlan.
  assert (∀ this0 this1, NoDup (selectedTasks this0) →
            restoreSelected document (getItem "uxSelectedTasks" localStorage) this0
              = Normal this1
            ∨ restoreSelected document (getItem "uxSelectedTasks" localStorage) this0
              = Throw this1 →
            NoDup (selectedTasks this1)) as Hsel.
  { intros this0 this1 Hnd. unfold restoreSelected.
    destruct (getItem "uxSelectedTasks" localStorage) as [text|];
      [|by intros [[= <-]|[=]]].
    destruct (truthy (Some text)); [|by intros [[= <-]|[=]]].
    destruct (parse text) as [[| | | |vs|]| |];
      try (by intros [[=]|[= <-]]); try (by intros [[=]|[=]]).
    destruct (mapM stringOfJson vs) as [ids|]; [|by intros [[=]|[=]]].
    by apply restoreIds_NoDup. }
  assert (∀ this1, restorePlan (getItem "uxProjectPlan" localStorage) constructed
                     = Normal this1
                   ∨ restorePlan (getItem "uxProjectPlan" localStorage) constructed
                     = Throw this1 →
                   NoDup (selectedTasks this1)) as Hplan.
  { intros this1. unfold restorePlan.
    destruct (getItem "uxProjectPlan" localStorage) as [text|];
      [|intros [[= <-]|[=]]; constructor].
    destruct (truthy (Some text)); [|intros [[= <-]|[=]]; constructor].
    destruct (parse text) as [v| |].
    - destruct (planOfJson v); [|by intros [[=]|[=]]].
      intros [[= <-]|[=]]. constructor.
    - intros [[=]|[= <-]]. constructor.
    - by intros [[=]|[=]]. }
  destruct (restorePlan _ constructed) as [this1|this1|] eqn:E1; cbn [andThen].
  - destruct (restoreSelected _ _ this1) as [this2|this2|] eqn:E2; [| |done].
    + intros [= <- _]. eapply Hsel; [apply Hplan; by left | by left].
    + intros [= <- _]. eapply Hsel; [apply Hplan; by left | by right].
  - intros [= <- _]. apply Hplan. by right.
  - done.
Qed.

(** X17 at work: the stored ids a, a, b are restored as a, b. *)
Lemma loadSavedPlan_selected_NoDup_witness :
  loadSavedPlan plainPage repeatedIdStorage constructed
  = Loaded {| selectedTasks := ["a"; "b"]; projectPlan := [] |} []
  ∧ NoDup ["a"; "b"].
Proof.
  assert (H : loadSavedPlan plainPage repeatedIdStorage constructed
              = Loaded {| selectedTasks := ["a"; "b"]; projectPlan := [] |} [])
    by (vm_compute; reflexivity).
  split; [exact H|].
  exact (loadSavedPlan_selected_NoDup plainPage repeatedIdStorage _ _ H).
Defined.

(** X18: when the stored id value parses to something that is not an array
    (a number, a string, an object, [null], a boolean), [forEach] is not a
    function: the error is caught and logged, no id is selected, and a plan
    that could be restored stays restored. *)
Theorem loadSavedPlan_ids_not_array (document : Document)
    (localStorage : gmap string string) (plan : list Task)
    (text : string) (v : json) :
  restorable (getItem "uxProjectPlan" localStorage) plan →
  getItem "uxSelectedTasks" localStorage = Some text →
  JSON.parse text = Parsed v →
  (∀ vs, v ≠ JArray vs) →
  loadSavedPlan document localStorage constructed
  = Loaded {| selectedTasks := []; projectPlan := plan |} loadError.
Proof.
  intros Hplan Hids Hparse Hv. unfold loadSavedPlan.
  rewrite (restorePlan_restorable _ plan) by done. cbn [andThen].
  unfold restoreSelected. rewrite Hids.
  assert (truthy (Some text) = true) as ->.
  { destruct text; [|done]. by vm_compute in Hparse. }
  rewrite Hparse. destruct v; try done. by destruct (Hv vs).
Qed.

(** X18 at work: the stored ids are the text of an empty object. *)
Lemma loadSavedPlan_ids_not_array_witness :
  restorable (getItem "uxProjectPlan" objectIdsStorage)
    [sampleTask "a" "1 day" "general"]
  ∧ getItem "uxSelectedTasks" objectIdsStorage = Some "{}"
  ∧ JSON.parse "{}" = Parsed (JObject [])
  ∧ (∀ vs, JObject [] ≠ JArray vs)
  ∧ loadSavedPlan plainPage objectIdsStorage constructed
    = Loaded {| selectedTasks := [];
                projectPlan := [sampleTask "a" "1 day" "general"] |} loadError.
Proof.
  assert (H1 : restorable (getItem "uxProjectPlan" objectIdsStorage)
                 [sampleTask "a" "1 day" "general"]).
  { eexists _, _. split_and!; vm_compute; reflexivity. }
  assert (H2 : getItem "uxSelectedTasks" objectIdsStorage = Some "{}")
    by (vm_compute; reflexivity).
  assert (H3 : JSON.parse "{}" = Parsed (JObject []))
    by (vm_compute; reflexivity).
  assert (H4 : ∀ vs, JObject [] ≠ JArray vs) by discriminate.
  split_and!; try assumption.
  exact (loadSavedPlan_ids_not_array plainPage objectIdsStorage _ _ _ H1 H2 H3 H4).
Defined.

(** X19: in every state reached by change events from a consistent state
    (the constructed one, or what [init] restored from the storage an
    earlier session left), the number written to the count element is the
    number of plan entries. *)
Theorem selectedCount_is_plan_length (start : ProjectPlanner)
    (events : list Checkbox) (localStorage : gmap string string)
    (page : Controls) :
  consistent start →
  hasSelectedCount page = true →
  let this := (handleAll events start localStorage).1 in
  selectedCount (updateSelectedCount page this)
  = Some (numberToString (length (projectPlan this))).
Proof.
  intros Hstart Hpage this.
  destruct (handleAll_consistent events start localStorage Hstart) as [_ Hids].
  fold this in Hids. unfold updateSelectedCount, Set_size.
  cbn [selectedCount]. rewrite Hpage, <- Hids. by rewrite length_map.
Qed.

(** X19 at work: after a restored state with one task, a second card is
    checked and the first one is checked again. *)
Lemma selectedCount_is_plan_length_witness :
  consistent oneSelected
  ∧ hasSelectedCount {| hasSelectedCount := true; hasCreatePlanBtn := false |} = true
  ∧ selectedCount
      (updateSelectedCount
         {| hasSelectedCount := true; hasCreatePlanBtn := false |}
         (handleAll
            [{| checked := true; taskCard := sampleTask "b" "2-4 days" "research" |};
             {| checked := true; taskCard := sampleTask "a" "1 week" "design" |}]
            oneSelected ∅).1)
    = Some "2".
Proof.
  assert (H : consistent oneSelected).
  { unfold consistent. apply (bool_decide_unpack _). vm_compute. exact I. }
  split; [exact H|]. split; [reflexivity|].
  exact (selectedCount_is_plan_length oneSelected
           [{| checked := true; taskCard := sampleTask "b" "2-4 days" "research" |};
            {| checked := true; taskCard := sampleTask "a" "1 week" "design" |}]
           ∅ {| hasSelectedCount := true; hasCreatePlanBtn := false |} H eq_refl).
Defined.
